(** * python-csv-crm-cleaner: the cleaning pipeline of [src/cleaner.py]

    A shallow embedding of [_normalize_header], [_build_auto_mapping],
    [CleanConfig] and [clean_contacts_csv], together with the argument
    check of [main.parse_args], and the properties of the specification
    that concern them.

    Conventions of the embedding.
    - A Python [str] is a [string]; the text is ASCII, so that
      [str.lower] touches [A-Z] only and the whitespace of [str.strip],
      [str.split] and the regular expression [\s] is the set of code
      points 9-13 and 28-32.
    - A pandas cell is a [cell]: [None], [NaN] and [NaT] are the single
      missing value [NA].
    - A data frame is kept row-wise: the list of its column labels and
      the list of its rows, every row carrying its index label.  The
      labels need not be distinct; a selection by label takes, as
      [loc] does, every row that carries the label.
    - The source columns of the names and of the address are columns
      of objects: texts, numbers, missing values.  The one datetime64
      column that the pipeline works on is the column of the date
      field, from line 85 on. *)

From Stdlib Require Import Ascii String ZArith.
From stdpp Require Import gmap strings list fin_maps sorting.

#[local] Set Warnings "-clear-no-such-hyp".

(** ** Text primitives (methods of Python's [str]) *)

Module Text.

(** [str.isspace] on one ASCII character. *)
Definition isspace (c : ascii) : bool :=
  let n := nat_of_ascii c in
  ((9 <=? n)%nat && (n <=? 13)%nat) || ((28 <=? n)%nat && (n <=? 32)%nat).

Definition lower_char (c : ascii) : ascii :=
  let n := nat_of_ascii c in
  if ((65 <=? n)%nat && (n <=? 90)%nat) then ascii_of_nat (n + 32) else c.

Fixpoint map_chars (f : ascii → ascii) (s : string) : string :=
  match s with
  | EmptyString => EmptyString
  | String c s' => String (f c) (map_chars f s')
  end.

(** [s.lower()] *)
Definition lower (s : string) : string := map_chars lower_char s.

(** [s.replace(a, b)] for one-character [a] and [b]. *)
Definition replace_char (a b : ascii) (s : string) : string :=
  map_chars (λ c, if Ascii.eqb c a then b else c) s.

Fixpoint lstrip (s : string) : string :=
  match s with
  | EmptyString => EmptyString
  | String c s' => if isspace c then lstrip s' else s
  end.

Fixpoint rstrip (s : string) : string :=
  match s with
  | EmptyString => EmptyString
  | String c s' =>
      match rstrip s' with
      | EmptyString => if isspace c then EmptyString else String c EmptyString
      | r => String c r
      end
  end.

(** [s.strip()] *)
Definition strip (s : string) : string := rstrip (lstrip s).

(** [True] when [s] is empty or begins with whitespace. *)
Definition at_gap (s : string) : bool :=
  match s with
  | EmptyString => true
  | String c _ => isspace c
  end.

(** [s.split()]: the maximal runs of non-whitespace characters. *)
Fixpoint split (s : string) : list string :=
  match s with
  | EmptyString => []
  | String c s' =>
      if isspace c then split s'
      else if at_gap s' then String c EmptyString :: split s'
      else match split s' with
           | w :: ws => String c w :: ws
           | [] => [String c EmptyString]
           end
  end.

(** [sep.join(l)] *)
Fixpoint join (sep : string) (l : list string) : string :=
  match l with
  | [] => EmptyString
  | [w] => w
  | w :: ws => w +:+ sep +:+ join sep ws
  end.

(** [re.sub(r"\s+", " ", s)]; [in_run] tells that the previous
    character belonged to the run of whitespace being replaced. *)
Fixpoint sub_ws (in_run : bool) (s : string) : string :=
  match s with
  | EmptyString => EmptyString
  | String c s' =>
      if isspace c
      then (if in_run then sub_ws true s' else String " " (sub_ws true s'))
      else String c (sub_ws false s')
  end.

Definition collapse_ws (s : string) : string := sub_ws false s.

End Text.

Import Text.

(** ** Header normaliser and auto-mapper *)

Definition COMMON_ALIASES : list (string * list string) :=
  [ ("full_name", ["full name"; "name"; "contact name"; "customer name"]);
    ("first_name", ["first name"; "firstname"; "given name"]);
    ("last_name", ["last name"; "lastname"; "surname"; "family name"]);
    ("email", ["email"; "e-mail"; "email address"]);
    ("phone", ["phone"; "telephone"; "mobile"]);
    ("last_clean_date",
      ["last clean date"; "last_clean_date"; "last service date"; "service date"; "date"]);
    ("clean_type", ["clean type"; "service"; "service type"; "type"]);
    ("invoice_amount_brutto",
      ["invoice amount (brutto)"; "invoice amount brutto"; "brutto"; "gross";
       "invoice amount"; "amount"]) ].

Definition _normalize_header (h : string) : string :=
  join " " (split (replace_char "_" " " (lower (strip h)))).


(** A Python [dict] keeps its keys in insertion order; [dict_set] is the
    assignment [d[k] = v]. *)
Fixpoint dict_set {V} (k : string) (v : V) (d : list (string * V)) : list (string * V) :=
  match d with
  | [] => [(k, v)]
  | (k', v') :: d' =>
      if decide (k' = k) then (k, v) :: d' else (k', v') :: dict_set k v d'
  end.

(** [{c: _normalize_header(c) for c in columns}] *)
Definition norm_cols (cols : list string) : list (string * string) :=
  foldl (λ d c, dict_set c (_normalize_header c) d) [] cols.

(** [{v: k for k, v in norm_cols.items()}]: a later item overwrites. *)
Definition reverse (cols : list string) : gmap string string :=
  foldl (λ m kv, <[kv.2 := kv.1]> m) ∅ (norm_cols cols).

(** The inner loop over the aliases of one canonical field, up to its
    [break]. *)
Fixpoint first_alias (rev : gmap string string) (aliases : list string) : option string :=
  match aliases with
  | [] => None
  | a :: rest =>
      match rev !! _normalize_header a with
      | Some h => Some h
      | None => first_alias rev rest
      end
  end.

Definition auto_mapping_with (aliases : list (string * list string))
    (cols : list string) : gmap string string :=
  foldl (λ mapping ca,
           match first_alias (reverse cols) ca.2 with
           | Some h => <[ca.1 := h]> mapping
           | None => mapping
           end) ∅ aliases.

Definition _build_auto_mapping (cols : list string) : gmap string string :=
  auto_mapping_with COMMON_ALIASES cols.

(** ** Data model *)

Inductive cell : Type :=
  | NA                   (** [None], [NaN] or [NaT] *)
  | Str (s : string)     (** a [str] *)
  | Num (repr : string)  (** a number other than [NaN], kept as the text [str()] prints *)
  | Ts (t : Z).          (** a [Timestamp], as its position on the time line *)

Global Instance cell_eq_dec : EqDecision cell.
Proof. solve_decision. Defined.

(** A frame row-wise: index label and the cells by column label. *)
Record DataFrame : Type := Frame {
  columns : list string;
  rows : list (Z * gmap string cell)
}.

(** The [row] entry of the report: [int(idx)] or the sentinel ["-"]. *)
Inductive row_ref : Type :=
  | Ordinal (i : Z)
  | NoRow.

Record report_entry : Type := Entry { row : row_ref; reason : string }.

Global Instance row_ref_eq_dec : EqDecision row_ref.
Proof. solve_decision. Defined.
Global Instance report_entry_eq_dec : EqDecision report_entry.
Proof. solve_decision. Defined.

Record CleanConfig : Type := Config {
  date_field : string;
  dedupe_key : string;
  required : list string;
  mapping : option (gmap string string)
}.

Record CleanResult : Type := Result {
  cleaned : DataFrame;
  report : list report_entry
}.

(** The dataclass-generated [__init__] of [CleanConfig] stores its four
    arguments; the class has no [__post_init__].  [None] would stand
    for a raised exception. *)
Definition CleanConfig_init (date_field dedupe_key : string) (required : list string)
    (mapping : option (gmap string string)) : option CleanConfig :=
  Some (Config date_field dedupe_key required mapping).

(** [main.parse_args]: the [choices] of [--dedupe-key] and its default;
    [None] is argparse's error exit. *)
Definition dedupe_key_choices : list string := ["email"; "full_name"].

Definition parse_dedupe_key (arg : option string) : option string :=
  match arg with
  | None => Some "email"
  | Some v => if bool_decide (v ∈ dedupe_key_choices) then Some v else None
  end.

(** ** Series and frame primitives (pandas) *)

Definition cell_at (r : gmap string cell) (c : string) : cell := default NA (r !! c).

(** [df[c]] as the list of its values. *)
Definition get_column (c : string) (f : DataFrame) : list cell :=
  (λ ir, cell_at ir.2 c) <$> rows f.

(** [df[c] = vals], the values aligned with the rows by position. *)
Definition set_column (c : string) (vals : list cell) (f : DataFrame) : DataFrame :=
  {| columns := if bool_decide (c ∈ columns f) then columns f else columns f ++ [c];
     rows := imap (λ k ir, (ir.1, <[c := default NA (vals !! k)]> ir.2)) (rows f) |}.

(** [.fillna("")] on a column of texts and other objects.  (On a
    datetime64 column pandas reads the empty text as [NaT] and leaves
    the column as it is; the pipeline meets such a column at line 118
    or 120 only, when the date field names the key column.) *)
Definition fillna (c : cell) : cell :=
  match c with
  | NA => Str ""
  | _ => c
  end.

(** Selection by a boolean mask, [rows[mask]]. *)
Fixpoint select_mask {A} (l : list A) (mask : list bool) : list A :=
  match l, mask with
  | x :: l', b :: mask' => if b then x :: select_mask l' mask' else select_mask l' mask'
  | _, _ => []
  end.

(** [rows.loc[labels]]: for every label of the list in turn, the rows
    that carry it, in their order.  A label that several rows carry
    selects all of them, and does so each time it comes in the list. *)
Definition loc (l : list (Z * gmap string cell)) (labels : list Z)
    : list (Z * gmap string cell) :=
  labels ≫= λ i, filter (λ ir, ir.1 = i) l.

(** Sorting is stable ([np.lexsort]); any stable sort gives the same
    list, here by insertion. *)
Fixpoint insert_sorted {A} (le : A → A → bool) (x : A) (l : list A) : list A :=
  match l with
  | [] => [x]
  | y :: l' => if le x y then x :: l else y :: insert_sorted le x l'
  end.

Definition stable_sort {A} (le : A → A → bool) (l : list A) : list A :=
  foldr (insert_sorted le) [] l.

(** Ascending order of one sort key with [na_position="last"], the
    default of [sort_values]: a missing value comes after every value.
    The sorted columns hold either [str] or [Timestamp]/[NaT]; the order
    between cells of different kinds is never consulted. *)
Definition cell_le (a b : cell) : bool :=
  match a, b with
  | _, NA => true
  | NA, _ => false
  | Ts x, Ts y => (x <=? y)%Z
  | Str x, Str y => String.leb x y
  | Num x, Num y => String.leb x y
  | _, _ => true
  end.

(** Lexicographic order on the sort keys [by = [k, d]]. *)
Definition rows_le (k d : string) (a b : Z * gmap string cell) : bool :=
  if decide (cell_at a.2 k = cell_at b.2 k)
  then cell_le (cell_at a.2 d) (cell_at b.2 d)
  else cell_le (cell_at a.2 k) (cell_at b.2 k).

(** [df.sort_values([k, d], ascending=[True, True])] *)
Definition sort_values (k d : string) (f : DataFrame) : DataFrame :=
  {| columns := columns f; rows := stable_sort (rows_le k d) (rows f) |}.

(** [drop_duplicates(subset=[k], keep="last")] on the rows. *)
Fixpoint keep_last (k : string) (l : list (Z * gmap string cell)) : list (Z * gmap string cell) :=
  match l with
  | [] => []
  | r :: l' =>
      if bool_decide (cell_at r.2 k ∈ (λ r', cell_at r'.2 k) <$> l')
      then keep_last k l'
      else r :: keep_last k l'
  end.

Definition drop_duplicates (k : string) (f : DataFrame) : DataFrame :=
  {| columns := columns f; rows := keep_last k (rows f) |}.

(** The distinct values of a list, each at its first occurrence. *)
Fixpoint distinct (l : list cell) : list cell :=
  match l with
  | [] => []
  | x :: l' => x :: filter (λ y, y ≠ x) (distinct l')
  end.

Definition count_occ_cell (x : cell) (l : list cell) : nat :=
  length (filter (λ y, y = x) l).

(** [df.groupby(k).size()]: the group labels with their sizes.  The
    frame it is applied to is sorted by [k] already, so the ascending
    labels of [groupby] are the distinct values in order of occurrence. *)
Definition groupby_size (k : string) (f : DataFrame) : list (cell * nat) :=
  let keys := get_column k f in
  (λ x, (x, count_occ_cell x keys)) <$> distinct keys.

(** [df.drop(columns=[c], errors="ignore")] *)
Definition drop_column (c : string) (f : DataFrame) : DataFrame :=
  {| columns := filter (λ c', c' ≠ c) (columns f);
     rows := (λ ir, (ir.1, delete c ir.2)) <$> rows f |}.

(** [df[cols]] for a list [cols] that holds every column of [df]: the
    columns are put in that order. *)
Definition reorder (cols : list string) (f : DataFrame) : DataFrame :=
  {| columns := cols; rows := rows f |}.

Definition canonical_cols : gset string := list_to_set (COMMON_ALIASES.*1).

Definition preferred_order : list string :=
  ["full_name"; "email"; "phone"; "last_clean_date"; "clean_type"; "invoice_amount_brutto"].

(** ** The pipeline *)

Section Pipeline.

(** The text parser of [pd.to_datetime(..., errors="coerce")]: the
    instant read from the cell at a position of a column, if any.  It
    sees the whole column, as the format is inferred from it. *)
Variable infer_datetime : list cell → nat → option Z.

(** [str()] of a [Timestamp]. *)
Variable timestamp_str : Z → string.

(** [str(v)], also what [.astype(str)] and an f-string apply. *)
Definition py_str (c : cell) : string :=
  match c with
  | NA => "nan"
  | Str s => s
  | Num r => r
  | Ts t => timestamp_str t
  end.

(** [pd.to_datetime(col, errors="coerce", utc=False)]: a missing value
    is [NaT], a [Timestamp] stays, other cells go through the parser. *)
Definition to_datetime (col : list cell) : list cell :=
  imap (λ k c, match c with
               | NA => NA
               | Ts t => Ts t
               | _ => from_option Ts NA (infer_datetime col k)
               end) col.

(** Lines 58-64: the canonical columns copied from their sources. *)
Definition project (m : gmap string string) (df : DataFrame) : DataFrame :=
  foldl (λ out canonical,
           match m !! canonical with
           | Some src =>
               if bool_decide (src ≠ "") && bool_decide (src ∈ columns df)
               then set_column canonical (get_column src df) out
               else out
           | None => out
           end)
        {| columns := []; rows := (λ ir, (ir.1, ∅)) <$> rows df |}
        (elements canonical_cols).

(** Lines 67-72. *)
Definition build_full_name (out : DataFrame) : DataFrame :=
  if bool_decide ("full_name" ∉ columns out)
     && bool_decide ("first_name" ∈ columns out)
     && bool_decide ("last_name" ∈ columns out)
  then set_column "full_name"
         (zip_with (λ a b, Str (strip (a +:+ " " +:+ b)))
            ((λ c, strip (py_str (fillna c))) <$> get_column "first_name" out)
            ((λ c, strip (py_str (fillna c))) <$> get_column "last_name" out))
         out
  else out.

(** Lines 75-78. *)
Definition normalize_full_name (out : DataFrame) : DataFrame :=
  if bool_decide ("full_name" ∈ columns out)
  then set_column "full_name"
         ((λ c, Str (strip (collapse_ws (py_str (fillna c))))) <$> get_column "full_name" out)
         out
  else out.

(** Lines 80-81. *)
Definition normalize_email (out : DataFrame) : DataFrame :=
  if bool_decide ("email" ∈ columns out)
  then set_column "email"
         ((λ c, Str (lower (strip (py_str (fillna c))))) <$> get_column "email" out)
         out
  else out.

(** Lines 58-81: the field canonicaliser up to the date parsing. *)
Definition canonicalize (m : gmap string string) (df : DataFrame) : DataFrame :=
  normalize_email (normalize_full_name (build_full_name (project m df))).

(** Lines 84-85. *)
Definition parse_date (d : string) (out : DataFrame) : DataFrame :=
  if bool_decide (d ∈ columns out)
  then set_column d (to_datetime (get_column d out)) out
  else out.

(** Lines 90-103; [cols] is [out.columns]. *)
Definition is_missing (cols : list string) (r : gmap string cell) (req : string) : bool :=
  if bool_decide (req ∉ cols) then true
  else match r !! req with
       | None => true
       | Some NA => true
       | Some (Str v) => bool_decide (strip v = "")
       | Some _ => false
       end.

Definition missing_required (req : list string) (cols : list string)
    (r : gmap string cell) : list string :=
  filter (λ q, is_missing cols r q = true) req.

(** Lines 105-112: one turn of the loop over [out.iterrows()], on the
    pair of [report_rows] and [mask_keep]. *)
Definition validate_step (req : list string) (cols : list string)
    (acc : list report_entry * list bool) (ir : Z * gmap string cell)
    : list report_entry * list bool :=
  let miss := missing_required req cols ir.2 in
  match miss with
  | [] => (acc.1, acc.2 ++ [true])
  | _ => (acc.1 ++ [Entry (Ordinal ir.1) ("missing_required:" +:+ join "," miss)],
          acc.2 ++ [false])
  end.

Definition validate (req : list string) (out : DataFrame) : list report_entry * list bool :=
  foldl (validate_step req (columns out)) ([], []) (rows out).

(** Lines 117-122, for a key column of texts and objects.  The [email]
    and [full_name] columns are such columns unless the date field
    names them: line 85 then leaves a datetime64 column, on which
    [fillna("")] changes nothing and [astype(str)] keeps a missing value
    missing and formats the column as a whole.  The theorems on the
    values of the keys take the date field to be another column. *)
Definition key_series (dk : string) (out_valid : DataFrame) : list cell :=
  if bool_decide (dk = "email") && bool_decide ("email" ∈ columns out_valid)
  then fillna <$> get_column "email" out_valid
  else fillna <$>
         (if bool_decide ("full_name" ∈ columns out_valid)
          then get_column "full_name" out_valid
          else replicate (length (rows out_valid)) (Str "")).

Definition add_dedupe_key (dk : string) (out_valid : DataFrame) : DataFrame :=
  set_column "_dedupe_key"
    ((λ c, Str (lower (strip (py_str c)))) <$> key_series dk out_valid) out_valid.

(** Lines 124-133: the retained rows and the report entries added. *)
Definition dedupe (d : string) (out_valid : DataFrame) : DataFrame * list report_entry :=
  if bool_decide (d ∈ columns out_valid)
  then
    let sorted := sort_values "_dedupe_key" d out_valid in
    let deduped := drop_duplicates "_dedupe_key" sorted in
    let dup_counts := groupby_size "_dedupe_key" sorted in
    let removed_keys := (filter (λ kn, 1 < kn.2) dup_counts).*1 in
    (deduped,
     (λ k, Entry NoRow ("deduped_removed_duplicates:key=" +:+ py_str k)) <$> removed_keys)
  else (drop_duplicates "_dedupe_key" out_valid, []).

(** Lines 137-139. *)
Definition order_columns (f : DataFrame) : DataFrame :=
  reorder (filter (λ c, c ∈ columns f) preferred_order
           ++ filter (λ c, c ∉ preferred_order) (columns f)) f.

(** The body of [clean_contacts_csv] below line 56, for the mapping
    [m] that [cfg.mapping] holds by then. *)
Definition clean_with (m : gmap string string) (d dk : string) (req : list string)
    (df : DataFrame) : CleanResult :=
  let out := parse_date d (canonicalize m df) in
  let '(report_rows, mask_keep) := validate req out in
  let out_valid :=
    {| columns := columns out;
       rows := loc (rows out) (select_mask (rows out).*1 mask_keep) |} in
  let '(deduped, dedupe_rows) := dedupe d (add_dedupe_key dk out_valid) in
  {| cleaned := order_columns (drop_column "_dedupe_key" deduped);
     report := report_rows ++ dedupe_rows |}.

(** [clean_contacts_csv(df, cfg)].  The configuration is an object
    shared with the caller: the call is a step on its state. *)
Definition clean_contacts_csv (df : DataFrame) (cfg : CleanConfig) : CleanResult * CleanConfig :=
  let cfg' :=
    match mapping cfg with
    | None => Config (date_field cfg) (dedupe_key cfg) (required cfg)
                (Some (_build_auto_mapping (columns df)))
    | Some _ => cfg
    end in
  (clean_with (default ∅ (mapping cfg')) (date_field cfg') (dedupe_key cfg') (required cfg') df,
   cfg').

End Pipeline.

(** ** Concrete frames and a concrete date parser, for evaluation *)

(** A frame with a [RangeIndex], as [pd.read_csv] builds it. *)
Definition range_frame (cols : list string) (records : list (list (string * cell))) : DataFrame :=
  {| columns := cols;
     rows := imap (λ k rec, (Z.of_nat k, list_to_map rec)) records |}.

Module IsoDates.

Local Open Scope Z_scope.

Definition digit (c : ascii) : option Z :=
  let n := Z.of_nat (nat_of_ascii c) in
  if (48 <=? n) && (n <=? 57) then Some (n - 48) else None.

Fixpoint number (acc : Z) (s : string) : option Z :=
  match s with
  | EmptyString => Some acc
  | String c s' => d ← digit c; number (10 * acc + d) s'
  end.

Definition leap (y : Z) : bool :=
  ((y mod 4 =? 0) && negb (y mod 100 =? 0)) || (y mod 400 =? 0).

Definition days_in_month (y m : Z) : Z :=
  if m =? 2 then (if leap y then 29 else 28)
  else if (m =? 4) || (m =? 6) || (m =? 9) || (m =? 11) then 30 else 31.

(** Days from 1970-01-01 to the civil date [y-m-d]. *)
Definition days_from_civil (y m d : Z) : Z :=
  let y' := if m <=? 2 then y - 1 else y in
  let era := y' / 400 in
  let yoe := y' - era * 400 in
  let doy := (153 * (if 2 <? m then m - 3 else m + 9) + 2) / 5 + d - 1 in
  let doe := yoe * 365 + yoe / 4 - yoe / 100 + doy in
  era * 146097 + doe - 719468.

Definition ns_per_day : Z := 86400 * 1000000000.

(** The instant of a text of the form [YYYY-MM-DD], in nanoseconds
    from the epoch. *)
Definition instant (s : string) : option Z :=
  match s with
  | String y1 (String y2 (String y3 (String y4 (String "-"
      (String m1 (String m2 (String "-" (String d1 (String d2 EmptyString))))))))) =>
      y ← number 0 (String y1 (String y2 (String y3 (String y4 EmptyString))));
      m ← number 0 (String m1 (String m2 EmptyString));
      d ← number 0 (String d1 (String d2 EmptyString));
      if (1 <=? m) && (m <=? 12) && (1 <=? d) && (d <=? days_in_month y m)
      then Some (days_from_civil y m d * ns_per_day)
      else None
  | _ => None
  end.

(** A parser that reads the ISO calendar dates and nothing else. *)
Definition infer (col : list cell) (k : nat) : option Z :=
  match col !! k with
  | Some (Str s) => instant (strip s)
  | _ => None
  end.

Definition digit_char (n : Z) : ascii := ascii_of_nat (Z.to_nat (48 + n mod 10)).

Fixpoint digits (width : nat) (n : Z) (tail : string) : string :=
  match width with
  | O => tail
  | S w => digits w (n / 10) (String (digit_char n) tail)
  end.

(** [str(Timestamp)] at a resolution of seconds:
    [YYYY-MM-DD HH:MM:SS]. *)
Definition to_str (t : Z) : string :=
  let z := t / ns_per_day + 719468 in
  let secs := (t mod ns_per_day) / 1000000000 in
  let era := z / 146097 in
  let doe := z - era * 146097 in
  let yoe := (doe - doe / 1460 + doe / 36524 - doe / 146096) / 365 in
  let doy := doe - (365 * yoe + yoe / 4 - yoe / 100) in
  let mp := (5 * doy + 2) / 153 in
  let d := doy - (153 * mp + 2) / 5 + 1 in
  let m := if mp <? 10 then mp + 3 else mp - 9 in
  let y := yoe + era * 400 + (if m <=? 2 then 1 else 0) in
  digits 4 y (String "-" (digits 2 m (String "-" (digits 2 d (String " "
    (digits 2 (secs / 3600) (String ":" (digits 2 (secs / 60 mod 60) (String ":"
      (digits 2 (secs mod 60) EmptyString)))))))))).

End IsoDates.

(** The pipeline with the ISO parser, on a configuration whose mapping
    is still to be derived from the headers. *)
Definition run_iso (df : DataFrame) (cfg : CleanConfig) : CleanResult * CleanConfig :=
  clean_contacts_csv IsoDates.infer IsoDates.to_str df cfg.

Definition default_config : CleanConfig := Config "last_clean_date" "email" ["full_name"] None.

(** ** Row-wise reading of the column operations

    The definitions of this part are not in the source: they name, row
    by row, what the column operations above compute, and the theorems
    relate the two. *)

(** The rows after an assignment [df[c] = ...] whose value on each row
    is [g] of that row. *)
Definition update_rows (c : string) (g : gmap string cell → cell)
    (l : list (Z * gmap string cell)) : list (Z * gmap string cell) :=
  (λ ir, (ir.1, <[c := g ir.2]> ir.2)) <$> l.

Definition add_column (c : string) (cols : list string) : list string :=
  if bool_decide (c ∈ cols) then cols else cols ++ [c].

(** The source column that line 63 accepts for a canonical field. *)
Definition picked (m : gmap string string) (df : DataFrame) (c : string) : option string :=
  match m !! c with
  | Some src => if bool_decide (src ≠ "") && bool_decide (src ∈ columns df) then Some src else None
  | None => None
  end.

Definition project_row (m : gmap string string) (df : DataFrame) (cs : list string)
    (acc r0 : gmap string cell) : gmap string cell :=
  foldl (λ o c, match picked m df c with
                | Some src => <[c := cell_at r0 src]> o
                | None => o
                end) acc cs.

Definition project_columns (m : gmap string string) (df : DataFrame) (cs : list string)
    (acc : list string) : list string :=
  foldl (λ o c, match picked m df c with
                | Some _ => add_column c o
                | None => o
                end) acc cs.

(** The value that [to_datetime] leaves in a cell. *)
Definition is_datetime (c : cell) : Prop :=
  match c with
  | NA | Ts _ => True
  | _ => False
  end.

Section RowWise.

Variable timestamp_str : Z → string.

Local Abbreviation py_str := (py_str timestamp_str).

(** The key of one row, as lines 117-122 compute it column-wise. *)
Definition row_key (dk : string) (cols : list string) (r : gmap string cell) : string :=
  lower (strip (py_str
    (fillna (if bool_decide (dk = "email") && bool_decide ("email" ∈ cols)
             then cell_at r "email"
             else if bool_decide ("full_name" ∈ cols)
                  then cell_at r "full_name"
                  else Str "")))).

Definition synth_full_name (r : gmap string cell) : cell :=
  Str (strip (strip (py_str (fillna (cell_at r "first_name"))) +:+ " "
              +:+ strip (py_str (fillna (cell_at r "last_name"))))).

Definition clean_full_name (r : gmap string cell) : cell :=
  Str (strip (collapse_ws (py_str (fillna (cell_at r "full_name"))))).

Definition clean_email (r : gmap string cell) : cell :=
  Str (lower (strip (py_str (fillna (cell_at r "email"))))).

End RowWise.

(** The report entry of a row that fails the validation. *)
Definition missing_entry (req cols : list string) (ir : Z * gmap string cell) : report_entry :=
  Entry (Ordinal ir.1) ("missing_required:" +:+ join "," (missing_required req cols ir.2)).

Definition is_valid (req cols : list string) (ir : Z * gmap string cell) : Prop :=
  missing_required req cols ir.2 = [].

Global Instance is_valid_dec req cols ir : Decision (is_valid req cols ir).
Proof. unfold is_valid. apply _. Defined.

(** The frame [out] when the validation starts (line 87). *)
Definition canonical_frame (infer_datetime : list cell → nat → option Z)
    (timestamp_str : Z → string) (m : gmap string string) (d : string)
    (df : DataFrame) : DataFrame :=
  parse_date infer_datetime d (canonicalize timestamp_str m df).

(** The frame [out_valid] of line 114: the rows under the labels of the
    rows that pass the validation. *)
Definition valid_frame (req : list string) (out : DataFrame) : DataFrame :=
  {| columns := columns out;
     rows := loc (rows out) (filter (is_valid req (columns out)) (rows out)).*1 |}.

(** The value of a row in the column [_dedupe_key]. *)
Definition key_cell (ir : Z * gmap string cell) : cell := cell_at ir.2 "_dedupe_key".

(** Every cell of a row sits in a column of the frame. *)
Definition rows_within (f : DataFrame) : Prop :=
  ∀ ir c, ir ∈ rows f → is_Some (ir.2 !! c) → c ∈ columns f.

(** The rows that [drop_duplicates] receives at line 126 or 133. *)
Definition dedupe_input (d : string) (keyed : DataFrame) : list (Z * gmap string cell) :=
  if bool_decide (d ∈ columns keyed)
  then stable_sort (rows_le "_dedupe_key" d) (rows keyed)
  else rows keyed.

(** Adding the key column to one row, and dropping it again. *)
Definition with_key (K : gmap string cell → string) (ir : Z * gmap string cell)
    : Z * gmap string cell :=
  (ir.1, <["_dedupe_key" := Str (K ir.2)]> ir.2).

Definition without_key (ir : Z * gmap string cell) : Z * gmap string cell :=
  (ir.1, delete "_dedupe_key" ir.2).

(** The cells of the rows of a frame, in the order of its columns. *)
Definition table (f : DataFrame) : list (Z * list cell) :=
  (λ ir, (ir.1, cell_at ir.2 <$> columns f)) <$> rows f.

(** Two contacts with one address, the first with a date and the second
    without, and the same two in the other order. *)
Definition dated_then_undated : DataFrame :=
  range_frame ["full name"; "Email"; "last_clean_date"]
    [ [("full name", Str "Ann Lee"); ("Email", Str "x@y.com");
       ("last_clean_date", Str "2022-05-01")];
      [("full name", Str "A. Lee"); ("Email", Str "x@y.com"); ("last_clean_date", NA)] ].

Definition undated_then_dated : DataFrame :=
  range_frame ["full name"; "Email"; "last_clean_date"]
    [ [("full name", Str "A. Lee"); ("Email", Str "x@y.com"); ("last_clean_date", NA)];
      [("full name", Str "Ann Lee"); ("Email", Str "x@y.com");
       ("last_clean_date", Str "2022-05-01")] ].

(** Two contacts with one address in a table without a date column. *)
Definition duplicates_without_date : DataFrame :=
  range_frame ["Name"; "Email"]
    [ [("Name", Str "Ann Lee"); ("Email", Str "x@y.com")];
      [("Name", Str "A. Lee"); ("Email", Str "X@Y.com ")] ].

(** The same two contacts with a date each. *)
Definition duplicates_with_date : DataFrame :=
  range_frame ["Name"; "Email"; "Date"]
    [ [("Name", Str "Ann Lee"); ("Email", Str "x@y.com"); ("Date", Str "2022-05-01")];
      [("Name", Str "A. Lee"); ("Email", Str "X@Y.com "); ("Date", Str "2021-01-31")] ].

(** A table with names only. *)
Definition names_only : DataFrame :=
  range_frame ["Name"]
    [ [("Name", Str "Ann Lee")]; [("Name", Str "Bob Ray")] ].

(** A second table whose headers differ from those of [names_only]. *)
Definition other_headers : DataFrame :=
  range_frame ["Customer Name"]
    [ [("Customer Name", Str "Cy Poe")] ].

(** A table with the two parts of a name and no full name. *)
Definition first_and_last : DataFrame :=
  range_frame ["First Name"; "Last Name"]
    [ [("First Name", Str "Ann"); ("Last Name", Str "Lee")];
      [("First Name", Str " Mary  Jo "); ("Last Name", NA)] ].

(** [True] when [s] is empty or begins with a character that is not
    whitespace. *)
Definition starts_solid (s : string) : bool :=
  match s with
  | EmptyString => true
  | String c _ => negb (isspace c)
  end.

(** The texts that [re.sub(r"\s+", " ", _)] leaves unchanged: every
    whitespace character is a space and no other follows it. *)
Fixpoint squeezed (s : string) : Prop :=
  match s with
  | EmptyString => True
  | String c s' =>
      (isspace c = true → c = " "%char ∧ starts_solid s' = true) ∧ squeezed s'
  end.

(** What [_normalize_header] does to one character before it splits:
    lower case, and a space for an underscore. *)
Definition fold_char (c : ascii) : ascii :=
  if Ascii.eqb (lower_char c) "_" then " "%char else lower_char c.

(** The keys of [norm_cols]: the headers, each at its first occurrence. *)
Definition header_keys (cols : list string) : list string :=
  foldl (λ ks c, add_column c ks) [] cols.

(** The header that [reverse] holds for a normal form: the last of the
    keys with that normal form. *)
Definition last_header (n : string) (ks : list string) : option string :=
  last (filter (λ h, _normalize_header h = n) ks).


(** ** The command line ([main.py]) *)

(** [s.split(sep)] for a one-character [sep]: the pieces between the
    separators, the empty ones included. *)
Fixpoint split_on (sep : ascii) (s : string) : list string :=
  match s with
  | EmptyString => [EmptyString]
  | String c s' =>
      if Ascii.eqb c sep then EmptyString :: split_on sep s'
      else match split_on sep s' with
           | w :: ws => String c w :: ws
           | [] => [String c EmptyString]
           end
  end.

(** Line 40 of [main]:
    [[x.strip() for x in args.required.split(",") if x.strip()]]. *)
Definition parse_required (arg : string) : list string :=
  strip <$> filter (λ x, strip x ≠ EmptyString) (split_on "," arg).

(** The options of [parse_args] that reach the configuration. *)
Record Args : Type := MkArgs {
  arg_date_field : string;
  arg_dedupe_key : string;
  arg_required : string;
  arg_mapping : string
}.

(** The defaults of [parse_args]. *)
Definition default_args : Args := MkArgs "last_clean_date" "email" "full_name" "".

(** Lines 33-42 of [main]: the configuration built from the options;
    [load_mapping] stands for reading the JSON file. *)
Definition main_config (load_mapping : string → gmap string string) (args : Args)
    : CleanConfig :=
  Config (arg_date_field args) (arg_dedupe_key args) (parse_required (arg_required args))
    (if bool_decide (arg_mapping args = EmptyString) then None
     else Some (load_mapping (arg_mapping args))).

(** ** Frames that a second run leaves as they are *)


(** When the frame has the column [c], every row holds a cell there
    that satisfies [P]. *)
Definition col_has (P : cell → Prop) (c : string) (f : DataFrame) : Prop :=
  c ∈ columns f → ∀ ir, ir ∈ rows f → ∃ v, ir.2 !! c = Some v ∧ P v.

Definition tidy_name (v : cell) : Prop := ∃ x, v = Str (strip (collapse_ws x)).

Definition tidy_email (v : cell) : Prop := ∃ x, v = Str (lower (strip x)).




(** ** Further notions for the properties *)

(** [True] when no character of [s] is whitespace. *)
Fixpoint solid (s : string) : bool :=
  match s with
  | EmptyString => true
  | String c s' => negb (isspace c) && solid s'
  end.

(** A word of [str.split]: not empty and free of whitespace. *)
Definition word (w : string) : Prop := w ≠ EmptyString ∧ solid w = true.

(** The characters of a text. *)
Fixpoint chars (s : string) : list ascii :=
  match s with
  | EmptyString => []
  | String c s' => c :: chars s'
  end.

(** The rows that reach the sort: the key is a string and the date is a
    time stamp or missing. *)
Definition sortable (d : string) (ir : Z * gmap string cell) : Prop :=
  (∃ k, cell_at ir.2 "_dedupe_key" = Str k) ∧ is_datetime (cell_at ir.2 d).

(** A table without a date column whose second row has no name. *)
Definition nameless_row : DataFrame :=
  range_frame ["Name"; "Email"]
    [ [("Name", Str "Ann Lee"); ("Email", Str "x@y.com")];
      [("Name", NA); ("Email", Str "z@y.com")] ].

(** A table with a telephone column. *)
Definition with_phone : DataFrame :=
  range_frame ["Name"; "Phone"]
    [ [("Name", Str "Ann Lee"); ("Phone", Str " 555 0100")];
      [("Name", Str "Bob Ray"); ("Phone", NA)] ].

(** A table with headers and no rows. *)
Definition no_rows : DataFrame := range_frame ["Name"; "Email"] [].

(** Two contacts with an address and a date each, the later address
    first. *)
Definition two_contacts_with_date : DataFrame :=
  range_frame ["Name"; "Email"; "Date"]
    [ [("Name", Str "Zed Poe"); ("Email", Str "z@y.com"); ("Date", Str "2022-05-01")];
      [("Name", Str "Ann Lee"); ("Email", Str "a@y.com"); ("Date", Str "2021-01-31")] ].

(** A table in which two rows carry the label 7; the second of them has
    a blank name. *)
Definition repeated_labels : DataFrame :=
  {| columns := ["Name"; "Email"];
     rows := [ (7%Z, list_to_map [("Name", Str "Ann Lee"); ("Email", Str "a@x.com")]);
               (7%Z, list_to_map [("Name", Str " "); ("Email", Str "b@x.com")]);
               (3%Z, list_to_map [("Name", Str "Cy Poe"); ("Email", Str "c@x.com")]) ] |}.

(** A configuration whose date field is the [email] column. *)
Definition email_as_date_config : CleanConfig :=
  Config "email" "full_name" ["full_name"] None.

(** The options with nothing but blanks for [--required]. *)
Definition blank_required_args : Args := MkArgs "last_clean_date" "email" " , " "".

(** The stages are reasoned about through their lemmas. *)
Global Arguments project : simpl never.
Global Arguments canonicalize : simpl never.
Global Arguments build_full_name : simpl never.
Global Arguments normalize_full_name : simpl never.
Global Arguments normalize_email : simpl never.
Global Arguments parse_date : simpl never.
Global Arguments canonical_frame : simpl never.
Global Arguments validate : simpl never.
Global Arguments key_series : simpl never.
Global Arguments add_dedupe_key : simpl never.
Global Arguments dedupe : simpl never.
Global Arguments dedupe_input : simpl never.
Global Arguments order_columns : simpl never.
Global Arguments clean_with : simpl never.
Global Arguments clean_contacts_csv : simpl never.
Global Arguments _build_auto_mapping : simpl never.
Global Arguments reverse : simpl never.
Global Arguments stable_sort : simpl never.
Global Arguments row_key : simpl never.
Global Arguments missing_required : simpl never.
Global Arguments is_missing : simpl never.
Global Arguments canonical_cols : simpl never.
Global Arguments COMMON_ALIASES : simpl never.
Global Arguments _normalize_header : simpl never.

(** * Properties *)

(** ** Text *)

Section TextLemmas.



Lemma map_chars_compose f g s : map_chars f (map_chars g s) = map_chars (f ∘ g) s.
Proof. induction s as [|c s IH]; simpl; [done|]. by rewrite IH. Qed.

Lemma map_chars_ext f g s : (∀ c, f c = g c) → map_chars f s = map_chars g s.
Proof. intros H. induction s as [|c s IH]; simpl; [done|]. by rewrite H, IH. Qed.


Lemma at_gap_map_chars g s :
  (∀ c, isspace (g c) = isspace c) → at_gap (map_chars g s) = at_gap s.
Proof. intros Hg. destruct s; simpl; [done|]. apply Hg. Qed.




(** No whitespace at the start. *)
Lemma lstrip_no_gap s : lstrip s = EmptyString ∨ at_gap (lstrip s) = false.
Proof.
  induction s as [|c s IH]; simpl; [by left|].
  destruct (isspace c) eqn:Hc; [done|]. right. simpl. done.
Qed.

Lemma lstrip_id s : s = EmptyString ∨ at_gap s = false → lstrip s = s.
Proof. intros [-> | H]; [done|]. destruct s; simpl in *; [done|]. by rewrite H. Qed.

Lemma rstrip_gap s : rstrip s ≠ EmptyString → at_gap (rstrip s) = at_gap s.
Proof.
  destruct s as [|c s]; simpl; [done|].
  destruct (rstrip s); simpl; [|done].
  destruct (isspace c) eqn:Hc; simpl; rewrite ?Hc; done.
Qed.

Lemma rstrip_idem s : rstrip (rstrip s) = rstrip s.
Proof.
  induction s as [|c s IH]; simpl; [done|].
  destruct (rstrip s) as [|d r] eqn:Hr.
  - destruct (isspace c) eqn:Hc; simpl; [done|]. by rewrite Hc.
  - simpl in *. by rewrite IH.
Qed.

Lemma strip_idem s : strip (strip s) = strip s.
Proof.
  unfold strip.
  assert (H : lstrip (rstrip (lstrip s)) = rstrip (lstrip s)).
  { apply lstrip_id.
    destruct (decide (rstrip (lstrip s) = EmptyString)) as [? | Hne]; [by left|].
    right. rewrite rstrip_gap by done.
    destruct (lstrip_no_gap s) as [He | ?]; [|done].
    rewrite He in Hne. done. }
  by rewrite H, rstrip_idem.
Qed.


(** *** Collapsing whitespace *)

Lemma sub_ws_squeezed s : ∀ b,
  squeezed (sub_ws b s) ∧ (b = true → starts_solid (sub_ws b s) = true).
Proof.
  induction s as [|c s IH]; intros b; simpl; [done|].
  destruct (isspace c) eqn:Hc.
  - destruct (IH true) as [Hs Hst]. destruct b.
    + split; [done|]. intros _. by apply Hst.
    + split; [|done]. simpl. split; [|done]. intros _. split; [done|]. by apply Hst.
  - destruct (IH false) as [Hs _]. simpl. rewrite Hc. split; [|done].
    split; [done|done].
Qed.


Lemma squeezed_lstrip s : squeezed s → squeezed (lstrip s).
Proof.
  induction s as [|c s IH]; simpl; [done|].
  intros [Hc Hs]. destruct (isspace c) eqn:Hsp; [by apply IH|].
  simpl. split; [intros; congruence | done].
Qed.

Lemma starts_solid_rstrip s : starts_solid s = true → starts_solid (rstrip s) = true.
Proof.
  destruct s as [|c s]; simpl; [done|].
  intros Hc. destruct (rstrip s); simpl; [|done].
  destruct (isspace c) eqn:Hsp; simpl; [done | by rewrite Hsp].
Qed.

Lemma squeezed_rstrip s : squeezed s → squeezed (rstrip s).
Proof.
  induction s as [|c s IH]; simpl; [done|].
  intros [Hc Hs]. specialize (IH Hs).
  destruct (rstrip s) as [|d r] eqn:Hr.
  - destruct (isspace c) eqn:Hsp; simpl; [done|]. by rewrite Hsp.
  - simpl. split; [|done]. intros Hsp. destruct (Hc Hsp) as [-> Hst].
    split; [done|]. apply starts_solid_rstrip in Hst. by rewrite Hr in Hst.
Qed.


(** *** Splitting into words *)

Lemma split_cons c s :
  split (String c s)
  = if isspace c then split s
    else if at_gap s then String c EmptyString :: split s
    else match split s with
         | w :: ws => String c w :: ws
         | [] => [String c EmptyString]
         end.
Proof. reflexivity. Qed.

Lemma split_solid_head d s :
  isspace d = false → ∃ w ws, split (String d s) = String d w :: ws.
Proof.
  intros Hd. rewrite split_cons, Hd.
  destruct (at_gap s); [eauto|]. destruct (split s); eauto.
Qed.

Lemma split_lstrip s : split (lstrip s) = split s.
Proof.
  induction s as [|c s IH]; [done|].
  simpl lstrip. destruct (isspace c) eqn:Hc; [by rewrite split_cons, Hc | done].
Qed.

Lemma split_rstrip s : split (rstrip s) = split s.
Proof.
  induction s as [|c s IH]; [done|].
  simpl rstrip. destruct (rstrip s) as [|d r] eqn:Hr.
  - rewrite (split_cons c s), <- IH. simpl.
    destruct (isspace c) eqn:Hc; [done|].
    rewrite split_cons, Hc. simpl. by destruct (at_gap s).
  - rewrite !split_cons, <- IH.
    assert (Hgap : at_gap (String d r) = at_gap s).
    { rewrite <- Hr. apply rstrip_gap. by rewrite Hr. }
    by rewrite Hgap.
Qed.

Lemma split_strip s : split (strip s) = split s.
Proof. unfold strip. by rewrite split_rstrip, split_lstrip. Qed.

Lemma split_map_chars g s :
  (∀ c, isspace c = true → isspace (g c) = true) →
  split (map_chars g s) = flat_map (λ w, split (map_chars g w)) (split s).
Proof.
  intros Hg. induction s as [|c s IH]; [done|].
  cbn [map_chars]. rewrite (split_cons c s), (split_cons (g c)).
  destruct (isspace c) eqn:Hc.
  { by rewrite (Hg c Hc). }
  destruct s as [|d s]; [| destruct (isspace d) eqn:Hd].
  - simpl. by destruct (isspace (g c)).
  - cbn [at_gap map_chars]. rewrite Hd, (Hg d Hd).
    cbn [flat_map]. rewrite <- IH. cbn [map_chars].
    rewrite (split_cons (g c) EmptyString). simpl at_gap. simpl split at 2.
    by destruct (isspace (g c)).
  - cbn [at_gap]. rewrite Hd.
    destruct (split_solid_head d s Hd) as (w & ws & Hw).
    rewrite Hw in IH |- *. cbn [flat_map] in IH |- *.
    cbn [map_chars] in IH |- *.
    rewrite (split_cons (g c) (String (g d) (map_chars g w))).
    cbn [at_gap]. rewrite IH.
    destruct (isspace (g c)); [done|].
    destruct (isspace (g d)) eqn:Hgd; [done|].
    destruct (split_solid_head (g d) (map_chars g w) Hgd) as (w' & ws' & ->).
    done.
Qed.

(** *** The normal form of a header *)

Lemma isspace_fold_char c : isspace c = true → isspace (fold_char c) = true.
Proof. by destruct c as [[] [] [] [] [] [] [] []]. Qed.

Lemma normalize_header_words h :
  _normalize_header h = join " " (flat_map (λ w, split (map_chars fold_char w)) (split h)).
Proof.
  unfold _normalize_header, replace_char, lower.
  rewrite map_chars_compose.
  rewrite (split_map_chars _ (strip h)), split_strip; [done|].
  intros c. apply isspace_fold_char.
Qed.

Lemma normalize_header_chars h :
  _normalize_header h = join " " (split (map_chars fold_char h)).
Proof.
  rewrite normalize_header_words, <- split_map_chars; [done|].
  apply isspace_fold_char.
Qed.




(** *** A collapsed and trimmed text is its words with one space between *)

Lemma at_gap_sub_ws s : at_gap (sub_ws false s) = at_gap s.
Proof.
  destruct s as [|c s]; [done|]. cbn [sub_ws].
  destruct (isspace c) eqn:Hc; cbn [at_gap]; rewrite ?Hc; reflexivity.
Qed.

Lemma split_sub_ws s : ∀ b, split (sub_ws b s) = split s.
Proof.
  induction s as [|c s IH]; intros b; [done|].
  cbn [sub_ws]. rewrite (split_cons c s).
  destruct (isspace c) eqn:Hc.
  - destruct b; [apply IH|]. rewrite split_cons. cbn [isspace]. apply IH.
  - rewrite split_cons, Hc, at_gap_sub_ws, IH. reflexivity.
Qed.

Lemma join_cons_char c w ws :
  join " " (String c w :: ws) = String c (join " " (w :: ws)).
Proof. destruct ws; reflexivity. Qed.

Lemma rstrip_fixed c s :
  rstrip (String c s) = String c s →
  (s = EmptyString ∧ isspace c = false) ∨ (s ≠ EmptyString ∧ rstrip s = s).
Proof.
  cbn [rstrip]. destruct (rstrip s) as [|d r] eqn:Hr.
  - destruct (isspace c); [done|]. intros [= <-]. by left.
  - intros [= <-]. by right.
Qed.

Lemma join_split_squeezed s :
  squeezed s → rstrip s = s → join " " (split s) = lstrip s.
Proof.
  induction s as [|c s IH]; [done|].
  intros [Hc Hsq] Hr.
  assert (IH' : join " " (split s) = lstrip s).
  { destruct (rstrip_fixed c s Hr) as [[-> _] | [_ Hs]]; [done | by apply IH]. }
  clear IH. rewrite (split_cons c s). cbn [lstrip].
  destruct (isspace c) eqn:Hsp; [exact IH'|].
  destruct s as [|d s]; [done|].
  destruct (isspace d) eqn:Hd.
  - cbn [at_gap]. rewrite Hd.
    destruct Hsq as [Hdsq Hsq]. destruct (Hdsq Hd) as [-> Hsolid].
    destruct (rstrip_fixed c _ Hr) as [[? _] | [_ Hs]]; [done|].
    destruct s as [|e s]; [done|].
    cbn [starts_solid] in Hsolid. apply negb_true_iff in Hsolid.
    assert (Hsplit : split (String " " (String e s)) = split (String e s)).
    { by rewrite (split_cons " "). }
    assert (Hl : lstrip (String " " (String e s)) = String e s).
    { cbn [lstrip]. change (isspace " ") with true. cbn [lstrip]. by rewrite Hsolid. }
    rewrite Hsplit, Hl in IH'. rewrite Hsplit.
    destruct (split_solid_head e s Hsolid) as (w & ws & Hw).
    rewrite Hw in IH' |- *.
    change (join " " (String c EmptyString :: String e w :: ws))
      with (String c (String " " (join " " (String e w :: ws)))).
    by rewrite IH'.
  - cbn [at_gap]. rewrite Hd.
    destruct (split_solid_head d s Hd) as (w & ws & Hw).
    rewrite Hw in IH' |- *. rewrite join_cons_char, IH'.
    cbn [lstrip]. by rewrite Hd.
Qed.

Lemma lstrip_strip s : lstrip (strip s) = strip s.
Proof.
  unfold strip. apply lstrip_id.
  destruct (decide (rstrip (lstrip s) = EmptyString)) as [? | Hne]; [by left|].
  right. rewrite rstrip_gap by done.
  destruct (lstrip_no_gap s) as [He | ?]; [|done].
  rewrite He in Hne. done.
Qed.

(** [re.sub(r"\s+", " ", s).strip()] is [" ".join(s.split())]. *)
Lemma strip_collapse_words s : strip (collapse_ws s) = join " " (split s).
Proof.
  assert (Hsq : squeezed (strip (collapse_ws s))).
  { apply squeezed_rstrip, squeezed_lstrip, sub_ws_squeezed. }
  assert (Hr : rstrip (strip (collapse_ws s)) = strip (collapse_ws s)).
  { unfold strip. apply rstrip_idem. }
  rewrite <- (lstrip_strip (collapse_ws s)).
  rewrite <- (join_split_squeezed _ Hsq Hr).
  rewrite split_strip. unfold collapse_ws. by rewrite split_sub_ws.
Qed.

End TextLemmas.

(** ** Frames *)

Section FrameLemmas.

Lemma imap_lookup_fmap {A B C} (F : A → C → B) (G : A → C) (d : C) (l : list A) :
  imap (λ k x, F x (default d ((G <$> l) !! k))) l = (λ x, F x (G x)) <$> l.
Proof.
  apply list_eq. intros k.
  rewrite list_lookup_imap, !list_lookup_fmap.
  destruct (l !! k); reflexivity.
Qed.

Lemma set_column_rows_fmap c c' (g : cell → cell) f :
  rows (set_column c (g <$> get_column c' f) f)
  = update_rows c (λ r, g (cell_at r c')) (rows f).
Proof.
  unfold set_column, get_column, update_rows. simpl.
  rewrite <- list_fmap_compose.
  apply (imap_lookup_fmap (λ ir v, (ir.1, <[c := v]> ir.2))
           (λ ir, g (cell_at ir.2 c')) NA).
Qed.

Lemma set_column_rows_gen c (G : Z * gmap string cell → cell) f :
  rows (set_column c (G <$> rows f) f)
  = (λ ir, (ir.1, <[c := G ir]> ir.2)) <$> rows f.
Proof.
  unfold set_column. simpl.
  apply (imap_lookup_fmap (λ ir v, (ir.1, <[c := v]> ir.2)) G NA).
Qed.

Lemma set_column_columns c vals f :
  columns (set_column c vals f) = add_column c (columns f).
Proof. reflexivity. Qed.

Lemma elem_of_add_column c c' cols :
  c' ∈ add_column c cols ↔ c' = c ∨ c' ∈ cols.
Proof.
  unfold add_column. case_bool_decide.
  - split; [auto | intros [-> | ?]; auto].
  - rewrite elem_of_app, list_elem_of_singleton. tauto.
Qed.

Lemma set_column_labels c vals f :
  (rows (set_column c vals f)).*1 = (rows f).*1.
Proof.
  unfold set_column. simpl. apply list_eq. intros k.
  rewrite !list_lookup_fmap, list_lookup_imap.
  destruct (rows f !! k); reflexivity.
Qed.

Lemma select_mask_fmap {A} (P : A → Prop) `{!∀ x, Decision (P x)} (l : list A) :
  select_mask l ((λ x, bool_decide (P x)) <$> l) = filter P l.
Proof.
  induction l as [|x l IH]; [reflexivity|].
  rewrite fmap_cons. cbn [select_mask]. rewrite IH, filter_cons.
  case_bool_decide; case_decide; tauto.
Qed.

Lemma select_mask_labels {A B} (f : A → B) (P : A → Prop) `{!∀ x, Decision (P x)}
    (l : list A) :
  select_mask (f <$> l) ((λ x, bool_decide (P x)) <$> l) = f <$> filter P l.
Proof.
  induction l as [|x l IH]; [reflexivity|].
  rewrite !fmap_cons. cbn [select_mask]. rewrite IH, filter_cons.
  case_bool_decide; case_decide; tauto.
Qed.

Lemma elem_of_loc l labels ir : ir ∈ loc l labels ↔ ir ∈ l ∧ ir.1 ∈ labels.
Proof.
  unfold loc. rewrite list_elem_of_bind. split.
  - intros (i & [Hi Hin]%list_elem_of_filter & Hl). by subst i.
  - intros [Hin Hl]. exists ir.1. split; [|done]. by apply list_elem_of_filter.
Qed.

Lemma filter_label_None (l : list (Z * gmap string cell)) i :
  i ∉ l.*1 → filter (λ x : Z * gmap string cell, x.1 = i) l = [].
Proof.
  induction l as [|x l IH]; [done|].
  rewrite fmap_cons, not_elem_of_cons, filter_cons. intros [Hne Hl].
  rewrite decide_False by done. by apply IH.
Qed.

Lemma filter_label (l : list (Z * gmap string cell)) ir :
  NoDup l.*1 → ir ∈ l → filter (λ x : Z * gmap string cell, x.1 = ir.1) l = [ir].
Proof.
  induction l as [|x l IH]; [by intros _ ?%elem_of_nil|].
  rewrite fmap_cons, NoDup_cons, filter_cons. intros [Hx Hnd].
  intros [-> | Hin]%elem_of_cons.
  - rewrite decide_True by done. f_equal. by apply filter_label_None.
  - rewrite decide_False; [by apply IH|].
    intros Heq. apply Hx. rewrite Heq. by apply list_elem_of_fmap_2.
Qed.

(** With distinct labels the selection by label is the selection by
    position. *)
Lemma loc_labels l l' : NoDup l.*1 → l' ⊆ l → loc l l'.*1 = l'.
Proof.
  intros Hnd. unfold loc. induction l' as [|x l' IH]; intros Hsub; [done|].
  rewrite fmap_cons, bind_cons.
  rewrite filter_label; [|done|apply Hsub; left].
  cbn [app]. f_equal. apply IH. intros y Hy. apply Hsub. by right.
Qed.

Lemma cell_at_insert c c' v (r : gmap string cell) :
  cell_at (<[c := v]> r) c' = if decide (c = c') then v else cell_at r c'.
Proof.
  unfold cell_at. rewrite lookup_insert. destruct (decide (c = c')); reflexivity.
Qed.

Lemma cell_at_delete_ne c c' (r : gmap string cell) :
  c ≠ c' → cell_at (delete c r) c' = cell_at r c'.
Proof. intros. unfold cell_at. by rewrite lookup_delete_ne. Qed.

End FrameLemmas.

(** ** The auto-mapper *)

Section MapperLemmas.

Lemma dict_set_keys (N : string → string) c ks :
  dict_set c (N c) ((λ k, (k, N k)) <$> ks) = (λ k, (k, N k)) <$> add_column c ks.
Proof.
  induction ks as [|k ks IH]; [done|].
  rewrite fmap_cons. cbn [dict_set].
  unfold add_column in *. destruct (decide (k = c)) as [-> | Hne].
  - rewrite bool_decide_eq_true_2 by left. done.
  - destruct (bool_decide (c ∈ ks)) eqn:Hc.
    + rewrite IH. apply bool_decide_eq_true_1 in Hc.
      rewrite bool_decide_eq_true_2 by (by right). done.
    + rewrite IH. apply bool_decide_eq_false_1 in Hc.
      rewrite bool_decide_eq_false_2; [done|].
      rewrite elem_of_cons. intros [? | ?]; congruence.
Qed.

Lemma norm_cols_keys cols :
  norm_cols cols = (λ k, (k, _normalize_header k)) <$> header_keys cols.
Proof.
  unfold norm_cols, header_keys.
  change (@nil (string * string)) with ((λ k, (k, _normalize_header k)) <$> @nil string).
  generalize (@nil string). induction cols as [|c cols IH]; intros ks; [done|].
  cbn [foldl]. by rewrite dict_set_keys, IH.
Qed.

Lemma elem_of_header_keys cols h : h ∈ header_keys cols ↔ h ∈ cols.
Proof.
  unfold header_keys.
  assert (H : ∀ ks, h ∈ foldl (λ ks c, add_column c ks) ks cols ↔ h ∈ ks ∨ h ∈ cols).
  { induction cols as [|c cols IH]; intros ks; cbn [foldl].
    - rewrite elem_of_nil. tauto.
    - rewrite IH, elem_of_add_column, elem_of_cons. tauto. }
  rewrite H, elem_of_nil. tauto.
Qed.


Lemma reverse_lookup cols n : reverse cols !! n = last_header n (header_keys cols).
Proof.
  unfold reverse, last_header. rewrite norm_cols_keys.
  induction (header_keys cols) as [|h ks IH] using rev_ind; [done|].
  rewrite fmap_app, foldl_app, filter_app. cbn [fmap list_fmap foldl snd fst].
  rewrite filter_cons, filter_nil.
  destruct (decide (_normalize_header h = n)) as [<- | Hne].
  - by rewrite lookup_insert_eq, last_snoc.
  - rewrite lookup_insert_ne by done. by rewrite app_nil_r.
Qed.

Lemma last_header_Some n ks h :
  last_header n ks = Some h → h ∈ ks ∧ _normalize_header h = n.
Proof.
  unfold last_header. intros H.
  assert (Hin : h ∈ filter (λ h, _normalize_header h = n) ks).
  { destruct (filter _ ks) as [|x l] using rev_ind; [done|].
    rewrite last_snoc in H. injection H as ->.
    rewrite elem_of_app, list_elem_of_singleton. by right. }
  apply list_elem_of_filter in Hin. tauto.
Qed.





Lemma auto_mapping_with_lookup aliases cols c :
  NoDup aliases.*1 →
  auto_mapping_with aliases cols !! c
  = match list_find (λ ca, ca.1 = c) aliases with
    | Some (_, ca) => first_alias (reverse cols) ca.2
    | None => None
    end.
Proof.
  unfold auto_mapping_with.
  induction aliases as [|[c' al] aliases IH] using rev_ind; intros Hnd; [done|].
  rewrite foldl_app. cbn [foldl fst snd].
  rewrite fmap_app in Hnd. apply NoDup_app in Hnd as (Hnd & Hdis & _).
  specialize (IH Hnd).
  destruct (decide (c' = c)) as [-> | Hne].
  - assert (Hfind : list_find (λ ca, ca.1 = c) aliases = None).
    { apply list_find_None, Forall_forall. intros [c2 al2] Hin Heq. simpl in Heq. subst c2.
      apply (Hdis c).
      - apply list_elem_of_fmap. by exists (c, al2).
      - left. }
    rewrite list_find_app_r by done. rewrite Hfind in IH.
    cbn. rewrite decide_True by done. cbn.
    destruct (first_alias (reverse cols) al).
    + by rewrite lookup_insert_eq.
    + done.
  - assert (Hrest : list_find (λ ca, ca.1 = c) (aliases ++ [(c', al)])
                    = list_find (λ ca, ca.1 = c) aliases).
    { destruct (list_find (λ ca, ca.1 = c) aliases) as [[i ca]|] eqn:Hf.
      - by apply list_find_app_l.
      - rewrite list_find_app_r by done. cbn. by rewrite decide_False. }
    rewrite Hrest.
    destruct (first_alias (reverse cols) al); [|done].
    by rewrite lookup_insert_ne.
Qed.

Lemma list_find_key {V} (l : list (string * V)) c v :
  NoDup l.*1 → (c, v) ∈ l → ∃ i, list_find (λ ca, ca.1 = c) l = Some (i, (c, v)).
Proof.
  induction l as [|[c' v'] l IH]; intros Hnd Hin; [by apply elem_of_nil in Hin|].
  rewrite fmap_cons in Hnd. apply NoDup_cons in Hnd as [Hc' Hnd].
  cbn. destruct (decide (c' = c)) as [-> | Hne].
  - exists 0. apply elem_of_cons in Hin as [[= ->] | Hin]; [done|].
    exfalso. apply Hc'. apply list_elem_of_fmap. by exists (c, v).
  - apply elem_of_cons in Hin as [[= -> ->] | Hin]; [done|].
    destruct (IH Hnd Hin) as [i ->]. by exists (S i).
Qed.

Lemma COMMON_ALIASES_NoDup : NoDup COMMON_ALIASES.*1.
Proof. apply (bool_decide_unpack _). by vm_compute. Qed.

Lemma build_auto_mapping_lookup cols c aliases :
  (c, aliases) ∈ COMMON_ALIASES →
  _build_auto_mapping cols !! c = first_alias (reverse cols) aliases.
Proof.
  intros Hin. unfold _build_auto_mapping.
  rewrite auto_mapping_with_lookup by apply COMMON_ALIASES_NoDup.
  destruct (list_find_key _ _ _ COMMON_ALIASES_NoDup Hin) as [i ->]. done.
Qed.

Lemma build_auto_mapping_other cols c :
  c ∉ COMMON_ALIASES.*1 → _build_auto_mapping cols !! c = None.
Proof.
  intros Hc. unfold _build_auto_mapping.
  rewrite auto_mapping_with_lookup by apply COMMON_ALIASES_NoDup.
  destruct (list_find _ _) as [[i [c' al]]|] eqn:Hf; [|done].
  apply list_find_Some in Hf as (Hi & Heq & _). simpl in Heq. subst c'.
  exfalso. apply Hc. apply list_elem_of_fmap. exists (c, al). split; [done|].
  apply list_elem_of_lookup. eauto.
Qed.


Lemma first_alias_Some rev aliases h :
  first_alias rev aliases = Some h →
  ∃ a, a ∈ aliases ∧ rev !! _normalize_header a = Some h.
Proof.
  induction aliases as [|a rest IH]; [done|]. cbn [first_alias].
  destruct (rev !! _normalize_header a) as [h'|] eqn:Ha.
  - intros [= ->]. exists a. split; [left | done].
  - intros H. destruct (IH H) as (a' & Hin & Ha'). exists a'. split; [by right | done].
Qed.



End MapperLemmas.

(** ** The stages of the pipeline, row by row *)

Section StageLemmas.

Variable infer_datetime : list cell → nat → option Z.
Variable timestamp_str : Z → string.

Local Abbreviation py_str := (py_str timestamp_str).
Local Abbreviation to_datetime := (to_datetime infer_datetime).
Local Abbreviation parse_date := (parse_date infer_datetime).
Local Abbreviation canonicalize := (canonicalize timestamp_str).
Local Abbreviation build_full_name := (build_full_name timestamp_str).
Local Abbreviation normalize_full_name := (normalize_full_name timestamp_str).
Local Abbreviation normalize_email := (normalize_email timestamp_str).
Local Abbreviation add_dedupe_key := (add_dedupe_key timestamp_str).
Local Abbreviation dedupe := (dedupe timestamp_str).
Local Abbreviation clean_with := (clean_with infer_datetime timestamp_str).
Local Abbreviation clean_contacts_csv := (clean_contacts_csv infer_datetime timestamp_str).
Local Abbreviation row_key := (row_key timestamp_str).
Local Abbreviation synth_full_name := (synth_full_name timestamp_str).
Local Abbreviation clean_full_name := (clean_full_name timestamp_str).
Local Abbreviation clean_email := (clean_email timestamp_str).

Lemma project_fold m df cs : ∀ out G,
  rows out = (λ ir, (ir.1, G ir.2)) <$> rows df →
  let out' := foldl (λ out canonical,
           match m !! canonical with
           | Some src =>
               if bool_decide (src ≠ "") && bool_decide (src ∈ columns df)
               then set_column canonical (get_column src df) out
               else out
           | None => out
           end) out cs in
  rows out' = (λ ir, (ir.1, project_row m df cs (G ir.2) ir.2)) <$> rows df
  ∧ columns out' = project_columns m df cs (columns out).
Proof.
  induction cs as [|c cs IH]; intros out G Hrows; simpl.
  - split; [exact Hrows | reflexivity].
  - unfold picked. destruct (m !! c) as [src|]; [|by apply IH].
    destruct (bool_decide (src ≠ "") && bool_decide (src ∈ columns df)); [|by apply IH].
    assert (Hrows' : rows (set_column c (get_column src df) out)
              = (λ ir, (ir.1, <[c := cell_at ir.2 src]> (G ir.2))) <$> rows df).
    { unfold set_column, get_column. simpl. rewrite Hrows.
      rewrite imap_fmap. unfold compose. simpl.
      apply (imap_lookup_fmap (λ ir v, (ir.1, <[c := v]> (G ir.2)))
               (λ ir, cell_at ir.2 src) NA). }
    destruct (IH _ (λ r0, <[c := cell_at r0 src]> (G r0)) Hrows') as [H1 H2].
    split; [exact H1 | exact H2].
Qed.

Lemma project_rows m df :
  rows (project m df)
  = (λ ir, (ir.1, project_row m df (elements canonical_cols) ∅ ir.2)) <$> rows df.
Proof.
  unfold project.
  exact (proj1 (project_fold m df (elements canonical_cols)
                  {| columns := []; rows := (λ ir, (ir.1, ∅)) <$> rows df |}
                  (λ _, ∅) eq_refl)).
Qed.

Lemma project_cols m df :
  columns (project m df) = project_columns m df (elements canonical_cols) [].
Proof.
  unfold project.
  exact (proj2 (project_fold m df (elements canonical_cols)
                  {| columns := []; rows := (λ ir, (ir.1, ∅)) <$> rows df |}
                  (λ _, ∅) eq_refl)).
Qed.

Lemma elem_of_project_columns m df cs : ∀ acc c,
  c ∈ project_columns m df cs acc ↔ c ∈ acc ∨ (c ∈ cs ∧ is_Some (picked m df c)).
Proof.
  induction cs as [|x cs IH]; intros acc c; simpl.
  - rewrite elem_of_nil. tauto.
  - rewrite elem_of_cons, IH. destruct (picked m df x) as [src|] eqn:Hx.
    + rewrite elem_of_add_column. split.
      * intros [[-> | ?] | [? ?]]; [right; split; [by left | by rewrite Hx] | by left | by right; split; [right|]].
      * intros [? | [[-> | ?] ?]]; [by left; right | by left; left | by right].
    + split.
      * intros [? | [? ?]]; [by left | by right; split; [right|]].
      * intros [? | [[-> | ?] Hs]]; [by left | rewrite Hx in Hs; by destruct Hs | by right].
Qed.

Lemma lookup_project_row m df r0 cs : ∀ acc c,
  project_row m df cs acc r0 !! c
  = if bool_decide (c ∈ cs)
    then match picked m df c with
         | Some src => Some (cell_at r0 src)
         | None => acc !! c
         end
    else acc !! c.
Proof.
  induction cs as [|x cs IH]; intros acc c; [reflexivity|].
  change (project_row m df (x :: cs) acc r0)
    with (project_row m df cs
            (match picked m df x with
             | Some src => <[x := cell_at r0 src]> acc
             | None => acc
             end) r0).
  rewrite IH. clear IH.
  destruct (decide (c = x)) as [-> | Hne].
  - rewrite (bool_decide_eq_true_2 (x ∈ x :: cs)) by left.
    destruct (picked m df x) as [src|] eqn:Hx.
    + rewrite lookup_insert_eq. by case_bool_decide.
    + by case_bool_decide.
  - assert (Hiff : c ∈ x :: cs ↔ c ∈ cs).
    { rewrite elem_of_cons. split; [intros [? | ?]; [done | done] | by right]. }
    rewrite (bool_decide_ext _ _ Hiff).
    destruct (picked m df x) as [src|] eqn:Hx; [|reflexivity].
    rewrite lookup_insert_ne by congruence. reflexivity.
Qed.

Lemma elem_of_project m df c :
  c ∈ columns (project m df) ↔ c ∈ canonical_cols ∧ is_Some (picked m df c).
Proof.
  rewrite project_cols, elem_of_project_columns, elem_of_nil, elem_of_elements. tauto.
Qed.

Lemma project_labels m df : (rows (project m df)).*1 = (rows df).*1.
Proof. rewrite project_rows, <- list_fmap_compose. reflexivity. Qed.

(** *** Canonicalisation *)

Lemma build_full_name_rows out :
  rows (build_full_name out)
  = if bool_decide ("full_name" ∉ columns out)
       && bool_decide ("first_name" ∈ columns out)
       && bool_decide ("last_name" ∈ columns out)
    then update_rows "full_name" synth_full_name (rows out)
    else rows out.
Proof.
  unfold build_full_name.
  destruct (bool_decide ("full_name" ∉ columns out)
            && bool_decide ("first_name" ∈ columns out)
            && bool_decide ("last_name" ∈ columns out)); [|reflexivity].
  unfold get_column. rewrite <- !list_fmap_compose.
  rewrite zip_with_fmap_l, zip_with_fmap_r, zip_with_diag.
  apply (set_column_rows_gen "full_name" (λ ir, synth_full_name ir.2)).
Qed.

Lemma build_full_name_columns out :
  columns (build_full_name out)
  = if bool_decide ("full_name" ∉ columns out)
       && bool_decide ("first_name" ∈ columns out)
       && bool_decide ("last_name" ∈ columns out)
    then columns out ++ ["full_name"]
    else columns out.
Proof.
  unfold build_full_name.
  destruct (bool_decide ("full_name" ∉ columns out)) eqn:Hf; simpl; [|reflexivity].
  destruct (bool_decide ("first_name" ∈ columns out)
            && bool_decide ("last_name" ∈ columns out)); [|reflexivity].
  apply bool_decide_eq_true_1 in Hf.
  unfold set_column. simpl. by rewrite bool_decide_eq_false_2.
Qed.

Lemma normalize_full_name_rows out :
  rows (normalize_full_name out)
  = if bool_decide ("full_name" ∈ columns out)
    then update_rows "full_name" clean_full_name (rows out)
    else rows out.
Proof.
  unfold normalize_full_name. case_bool_decide; [|reflexivity].
  apply set_column_rows_fmap.
Qed.

Lemma normalize_full_name_columns out :
  columns (normalize_full_name out) = columns out.
Proof.
  unfold normalize_full_name. case_bool_decide as H; [|reflexivity].
  unfold set_column. simpl. by rewrite bool_decide_eq_true_2.
Qed.

Lemma normalize_email_rows out :
  rows (normalize_email out)
  = if bool_decide ("email" ∈ columns out)
    then update_rows "email" clean_email (rows out)
    else rows out.
Proof.
  unfold normalize_email. case_bool_decide; [|reflexivity].
  apply set_column_rows_fmap.
Qed.

Lemma normalize_email_columns out :
  columns (normalize_email out) = columns out.
Proof.
  unfold normalize_email. case_bool_decide as H; [|reflexivity].
  unfold set_column. simpl. by rewrite bool_decide_eq_true_2.
Qed.

Lemma parse_date_columns d out : columns (parse_date d out) = columns out.
Proof.
  unfold parse_date. case_bool_decide as H; [|reflexivity].
  unfold set_column. simpl. by rewrite bool_decide_eq_true_2.
Qed.

Lemma to_datetime_lookup col k c :
  col !! k = Some c → ∃ c', to_datetime col !! k = Some c' ∧ is_datetime c'
    ∧ (is_datetime c → c' = c).
Proof.
  intros Hk. unfold to_datetime. rewrite list_lookup_imap, Hk. simpl.
  eexists. split; [reflexivity|].
  destruct c; simpl; try tauto; destruct (infer_datetime col k); simpl; tauto.
Qed.

Lemma to_datetime_length col : length (to_datetime col) = length col.
Proof. apply length_imap. Qed.


(** *** Validation *)

Lemma validate_fold req cols l : ∀ rep mask,
  foldl (validate_step req cols) (rep, mask) l
  = (rep ++ (missing_entry req cols <$> filter (λ ir, ¬ is_valid req cols ir) l),
     mask ++ ((λ ir, bool_decide (is_valid req cols ir)) <$> l)).
Proof.
  induction l as [|ir l IH]; intros rep mask.
  - simpl. by rewrite !app_nil_r.
  - assert (Hstep : validate_step req cols (rep, mask) ir
                    = if decide (is_valid req cols ir)
                      then (rep, mask ++ [true])
                      else (rep ++ [missing_entry req cols ir], mask ++ [false])).
    { destruct (decide (is_valid req cols ir)) as [Hv | Hv];
        unfold is_valid in Hv; unfold validate_step, missing_entry;
        destruct (missing_required req cols ir.2) eqn:Hm; simpl; congruence. }
    cbn [foldl]. rewrite Hstep, filter_cons, fmap_cons.
    destruct (decide (is_valid req cols ir)) as [Hv | Hv].
    + rewrite IH, decide_False by tauto.
      rewrite bool_decide_eq_true_2 by done.
      by rewrite <- app_assoc.
    + rewrite IH, decide_True by done.
      rewrite bool_decide_eq_false_2 by done.
      by rewrite fmap_cons, <- !app_assoc.
Qed.

Lemma validate_spec req out :
  validate req out
  = (missing_entry req (columns out)
       <$> filter (λ ir, ¬ is_valid req (columns out) ir) (rows out),
     (λ ir, bool_decide (is_valid req (columns out) ir)) <$> rows out).
Proof. unfold validate. by rewrite validate_fold. Qed.

(** *** The dedupe key *)

Lemma add_dedupe_key_rows dk ov :
  rows (add_dedupe_key dk ov)
  = update_rows "_dedupe_key" (λ r, Str (row_key dk (columns ov) r)) (rows ov).
Proof.
  unfold add_dedupe_key, key_series, row_key.
  destruct (bool_decide (dk = "email") && bool_decide ("email" ∈ columns ov)).
  - unfold get_column. rewrite <- !list_fmap_compose.
    apply (set_column_rows_gen "_dedupe_key"
             (λ ir, Str (lower (strip (py_str (fillna (cell_at ir.2 "email"))))))).
  - case_bool_decide.
    + unfold get_column. rewrite <- !list_fmap_compose.
      apply (set_column_rows_gen "_dedupe_key"
               (λ ir, Str (lower (strip (py_str (fillna (cell_at ir.2 "full_name"))))))).
    + replace (replicate (length (rows ov)) (Str ""))
        with ((λ _, Str "") <$> rows ov).
      * rewrite <- !list_fmap_compose.
        apply (set_column_rows_gen "_dedupe_key"
                 (λ ir, Str (lower (strip (py_str (fillna (Str ""))))))).
      * by apply const_fmap.
Qed.

Lemma add_dedupe_key_columns dk ov :
  columns (add_dedupe_key dk ov) = add_column "_dedupe_key" (columns ov).
Proof. reflexivity. Qed.

(** *** Sorting and dropping duplicates *)

Lemma insert_sorted_perm {A} (le : A → A → bool) x l :
  insert_sorted le x l ≡ₚ x :: l.
Proof.
  induction l as [|y l IH]; simpl; [done|].
  destruct (le x y); [done|]. rewrite IH. apply Permutation_swap.
Qed.

Lemma stable_sort_perm {A} (le : A → A → bool) l : stable_sort le l ≡ₚ l.
Proof.
  induction l as [|x l IH]; simpl; [done|].
  unfold stable_sort in *. simpl. by rewrite insert_sorted_perm, IH.
Qed.

Lemma keep_last_sublist k l : keep_last k l `sublist_of` l.
Proof.
  induction l as [|r l IH]; cbn [keep_last]; [constructor|].
  case_bool_decide; by constructor.
Qed.

Lemma keep_last_subseteq k l : keep_last k l ⊆ l.
Proof.
  induction l as [|r l IH]; simpl; [done|].
  case_bool_decide; set_solver.
Qed.

Lemma keep_last_keys k l x :
  x ∈ (λ r, cell_at r.2 k) <$> keep_last k l ↔ x ∈ (λ r, cell_at r.2 k) <$> l.
Proof.
  induction l as [|r l IH]; simpl; [done|].
  case_bool_decide as Hin.
  - rewrite IH. set_solver.
  - rewrite fmap_cons, !elem_of_cons, IH. done.
Qed.

Lemma keep_last_NoDup k l : NoDup ((λ r, cell_at r.2 k) <$> keep_last k l).
Proof.
  induction l as [|r l IH]; simpl; [constructor|].
  case_bool_decide as Hin; [done|].
  rewrite fmap_cons. constructor; [|done].
  by rewrite keep_last_keys.
Qed.

Lemma keep_last_id k l :
  NoDup ((λ r, cell_at r.2 k) <$> l) → keep_last k l = l.
Proof.
  induction l as [|r l IH]; simpl; [done|].
  rewrite NoDup_cons. intros [Hr Hl].
  rewrite bool_decide_eq_false_2 by done. by rewrite IH.
Qed.

Lemma elem_of_distinct l x : x ∈ distinct l ↔ x ∈ l.
Proof.
  induction l as [|y l IH]; simpl; [done|].
  rewrite !elem_of_cons, list_elem_of_filter, IH.
  destruct (decide (x = y)); naive_solver.
Qed.

Lemma NoDup_distinct l : NoDup (distinct l).
Proof.
  induction l as [|y l IH]; simpl; [constructor|].
  constructor.
  - rewrite list_elem_of_filter. naive_solver.
  - by apply NoDup_filter.
Qed.

Lemma count_occ_cell_perm x l l' : l ≡ₚ l' → count_occ_cell x l = count_occ_cell x l'.
Proof. intros H. unfold count_occ_cell. by rewrite H. Qed.

Lemma count_occ_cell_NoDup x l : NoDup l → count_occ_cell x l ≤ 1.
Proof.
  unfold count_occ_cell. induction 1 as [|y l Hy Hl IH]; simpl; [lia|].
  rewrite filter_cons. case_decide as Hxy; [|done]. subst y. simpl.
  destruct (filter (λ y, y = x) l) as [|z zs] eqn:Hf; [simpl; lia|].
  assert (Hz : z ∈ filter (λ y, y = x) l) by (rewrite Hf; left).
  apply list_elem_of_filter in Hz as [-> Hz]. done.
Qed.

(** *** Cells stay within the columns *)

Lemma set_column_rows_inv c vals f ir' :
  ir' ∈ rows (set_column c vals f) →
  ∃ ir v, ir ∈ rows f ∧ ir' = (ir.1, <[c := v]> ir.2).
Proof.
  unfold set_column. simpl. intros H.
  apply list_elem_of_lookup in H as [k Hk].
  rewrite list_lookup_imap in Hk.
  destruct (rows f !! k) as [ir|] eqn:Hir; [|done].
  simpl in Hk. injection Hk as <-.
  exists ir, (default NA (vals !! k)). split; [|done].
  apply list_elem_of_lookup. eauto.
Qed.

Lemma rows_within_set_column c vals f :
  rows_within f → rows_within (set_column c vals f).
Proof.
  intros Hf ir' c' Hin Hsome.
  apply set_column_rows_inv in Hin as (ir & v & Hin & ->).
  rewrite set_column_columns, elem_of_add_column. simpl in Hsome.
  destruct (decide (c' = c)) as [-> | Hne]; [by left|].
  right. rewrite lookup_insert_ne in Hsome by done. by apply (Hf ir).
Qed.

Lemma rows_within_project m df : rows_within (project m df).
Proof.
  intros ir c Hin Hsome. rewrite project_rows in Hin.
  apply list_elem_of_fmap in Hin as (ir0 & -> & _). simpl in Hsome.
  rewrite lookup_project_row, lookup_empty in Hsome.
  case_bool_decide as Hc; [|by destruct Hsome].
  apply elem_of_project. rewrite elem_of_elements in Hc. split; [done|].
  destruct (picked m df c); [eauto | by destruct Hsome].
Qed.

Lemma rows_within_build_full_name out :
  rows_within out → rows_within (build_full_name out).
Proof.
  intros H. unfold build_full_name.
  destruct (_ && _); [by apply rows_within_set_column | done].
Qed.

Lemma rows_within_normalize_full_name out :
  rows_within out → rows_within (normalize_full_name out).
Proof.
  intros H. unfold normalize_full_name.
  case_bool_decide; [by apply rows_within_set_column | done].
Qed.

Lemma rows_within_normalize_email out :
  rows_within out → rows_within (normalize_email out).
Proof.
  intros H. unfold normalize_email.
  case_bool_decide; [by apply rows_within_set_column | done].
Qed.

Lemma rows_within_parse_date d out :
  rows_within out → rows_within (parse_date d out).
Proof.
  intros H. unfold parse_date.
  case_bool_decide; [by apply rows_within_set_column | done].
Qed.

Lemma rows_within_canonical_frame m d df :
  rows_within (canonical_frame infer_datetime timestamp_str m d df).
Proof.
  apply rows_within_parse_date, rows_within_normalize_email,
    rows_within_normalize_full_name, rows_within_build_full_name,
    rows_within_project.
Qed.

Lemma canonicalize_columns m df c :
  c ∈ columns (canonicalize m df) ↔
  c ∈ columns (project m df)
  ∨ (c = "full_name" ∧ "first_name" ∈ columns (project m df)
                     ∧ "last_name" ∈ columns (project m df)).
Proof.
  unfold canonicalize.
  rewrite normalize_email_columns, normalize_full_name_columns, build_full_name_columns.
  generalize (columns (project m df)). intros cols.
  case_bool_decide as H1; cbn [andb].
  - case_bool_decide as H2; cbn [andb].
    + case_bool_decide as H3.
      * rewrite elem_of_app, list_elem_of_singleton. tauto.
      * tauto.
    + tauto.
  - split; [tauto|]. intros [? | (-> & _ & _)]; [done|].
    destruct (decide ("full_name" ∈ cols)); tauto.
Qed.

Lemma full_name_canonical : "full_name" ∈ canonical_cols.
Proof. by vm_compute. Qed.

Lemma dedupe_key_not_canonical : "_dedupe_key" ∉ canonical_cols.
Proof. by vm_compute. Qed.

Lemma canonical_frame_columns m d df c :
  c ∈ columns (canonical_frame infer_datetime timestamp_str m d df) → c ∈ canonical_cols.
Proof.
  unfold canonical_frame. rewrite parse_date_columns, canonicalize_columns.
  intros [H | (-> & _)].
  - by apply elem_of_project in H as [? _].
  - apply full_name_canonical.
Qed.

(** *** The whole pipeline, taken apart *)

Lemma clean_with_unfold m d dk req df :
  clean_with m d dk req df
  = let out := canonical_frame infer_datetime timestamp_str m d df in
    let dd := dedupe d (add_dedupe_key dk (valid_frame req out)) in
    {| cleaned := order_columns (drop_column "_dedupe_key" dd.1);
       report := (missing_entry req (columns out)
                    <$> filter (λ ir, ¬ is_valid req (columns out) ir) (rows out))
                 ++ dd.2 |}.
Proof.
  unfold clean_with.
  fold (canonical_frame infer_datetime timestamp_str m d df).
  rewrite validate_spec, select_mask_labels.
  fold (valid_frame req (canonical_frame infer_datetime timestamp_str m d df)).
  cbv zeta.
  by destruct (dedupe d _).
Qed.

Lemma dedupe_rows d keyed :
  rows (dedupe d keyed).1 = keep_last "_dedupe_key" (dedupe_input d keyed).
Proof. unfold dedupe, dedupe_input. by case_bool_decide. Qed.

Lemma dedupe_columns d keyed : columns (dedupe d keyed).1 = columns keyed.
Proof. unfold dedupe. by case_bool_decide. Qed.

Lemma dedupe_input_perm d keyed : dedupe_input d keyed ≡ₚ rows keyed.
Proof. unfold dedupe_input. case_bool_decide; [apply stable_sort_perm | done]. Qed.

Lemma elem_of_order_columns f c : c ∈ columns (order_columns f) ↔ c ∈ columns f.
Proof.
  unfold order_columns. simpl.
  rewrite elem_of_app, !list_elem_of_filter.
  destruct (decide (c ∈ preferred_order)); tauto.
Qed.

Lemma order_columns_rows f : rows (order_columns f) = rows f.
Proof. reflexivity. Qed.

Lemma drop_key_rows f : rows (drop_column "_dedupe_key" f) = without_key <$> rows f.
Proof. reflexivity. Qed.

Lemma drop_key_columns f c :
  c ∈ columns (drop_column "_dedupe_key" f) ↔ c ≠ "_dedupe_key" ∧ c ∈ columns f.
Proof. unfold drop_column. cbn [columns]. by rewrite list_elem_of_filter. Qed.

Lemma cleaned_eq m d dk req df :
  cleaned (clean_with m d dk req df)
  = order_columns (drop_column "_dedupe_key"
      (dedupe d (add_dedupe_key dk
         (valid_frame req (canonical_frame infer_datetime timestamp_str m d df)))).1).
Proof. by rewrite clean_with_unfold. Qed.

Lemma report_eq m d dk req df :
  report (clean_with m d dk req df)
  = (missing_entry req (columns (canonical_frame infer_datetime timestamp_str m d df))
       <$> filter (λ ir, ¬ is_valid req
                            (columns (canonical_frame infer_datetime timestamp_str m d df)) ir)
             (rows (canonical_frame infer_datetime timestamp_str m d df)))
    ++ (dedupe d (add_dedupe_key dk
          (valid_frame req (canonical_frame infer_datetime timestamp_str m d df)))).2.
Proof. by rewrite clean_with_unfold. Qed.

Lemma valid_frame_columns req out : columns (valid_frame req out) = columns out.
Proof. reflexivity. Qed.

Lemma stage_labels (stage : DataFrame → DataFrame) out :
  (stage out = out ∨ ∃ c vals, stage out = set_column c vals out) →
  (rows (stage out)).*1 = (rows out).*1.
Proof.
  intros [-> | (c & vals & ->)]; [done|]. apply set_column_labels.
Qed.

Lemma canonical_frame_labels m d df :
  (rows (canonical_frame infer_datetime timestamp_str m d df)).*1 = (rows df).*1.
Proof.
  unfold canonical_frame, canonicalize.
  rewrite (stage_labels (parse_date d)).
  2:{ unfold parse_date. case_bool_decide; [right; by eexists _, _ | by left]. }
  rewrite (stage_labels normalize_email).
  2:{ unfold normalize_email. case_bool_decide; [right; by eexists _, _ | by left]. }
  rewrite (stage_labels normalize_full_name).
  2:{ unfold normalize_full_name. case_bool_decide; [right; by eexists _, _ | by left]. }
  rewrite (stage_labels build_full_name).
  2:{ unfold build_full_name. destruct (_ && _); [right; by eexists _, _ | by left]. }
  apply project_labels.
Qed.

Lemma elem_of_valid_frame req out ir :
  ir ∈ rows (valid_frame req out)
  ↔ ir ∈ rows out
    ∧ ∃ v, v ∈ rows out ∧ is_valid req (columns out) v ∧ v.1 = ir.1.
Proof.
  unfold valid_frame. cbn [rows]. rewrite elem_of_loc, list_elem_of_fmap.
  split.
  - intros [Hin (v & Hl & [Hv Hvin]%list_elem_of_filter)]. split; [done|].
    by exists v.
  - intros [Hin (v & Hvin & Hv & Hl)]. split; [done|].
    exists v. split; [done|]. by apply list_elem_of_filter.
Qed.

Lemma valid_frame_subseteq req out : rows (valid_frame req out) ⊆ rows out.
Proof. intros ir Hin. by apply elem_of_valid_frame in Hin as [? _]. Qed.

Lemma valid_in_valid_frame req out ir :
  ir ∈ rows out → is_valid req (columns out) ir → ir ∈ rows (valid_frame req out).
Proof. intros Hin Hv. apply elem_of_valid_frame. split; [done|]. by exists ir. Qed.

(** With distinct labels [out_valid] holds the valid rows and no
    other. *)
Lemma valid_frame_rows req out :
  NoDup (rows out).*1 →
  rows (valid_frame req out) = filter (is_valid req (columns out)) (rows out).
Proof.
  intros Hnd. unfold valid_frame. cbn [rows]. apply loc_labels; [done|].
  intros x Hx. by apply list_elem_of_filter in Hx as [_ ?].
Qed.

Lemma canonical_frame_NoDup m d df :
  NoDup (rows df).*1 →
  NoDup (rows (canonical_frame infer_datetime timestamp_str m d df)).*1.
Proof. intros Hnd. by rewrite canonical_frame_labels. Qed.

Lemma cleaned_rows m d dk req df :
  let out := canonical_frame infer_datetime timestamp_str m d df in
  rows (cleaned (clean_with m d dk req df))
  = without_key <$> keep_last "_dedupe_key"
      (dedupe_input d (add_dedupe_key dk (valid_frame req out))).
Proof.
  intros out. by rewrite cleaned_eq, order_columns_rows, drop_key_rows, dedupe_rows.
Qed.

Lemma cleaned_columns m d dk req df c :
  c ∈ columns (cleaned (clean_with m d dk req df))
  ↔ c ∈ columns (canonical_frame infer_datetime timestamp_str m d df).
Proof.
  rewrite cleaned_eq, elem_of_order_columns, drop_key_columns.
  rewrite dedupe_columns, add_dedupe_key_columns, elem_of_add_column.
  rewrite valid_frame_columns. split.
  - intros [Hne [? | ?]]; done.
  - intros Hc. split; [|by right].
    intros ->. by apply canonical_frame_columns, dedupe_key_not_canonical in Hc.
Qed.

Lemma without_with_key K ir :
  ir.2 !! "_dedupe_key" = None → without_key (with_key K ir) = ir.
Proof.
  intros H. unfold without_key, with_key. destruct ir as [i r]. simpl in *.
  by rewrite delete_insert_id.
Qed.

Lemma valid_rows_lack_key m d df req ir :
  ir ∈ rows (valid_frame req (canonical_frame infer_datetime timestamp_str m d df)) →
  ir.2 !! "_dedupe_key" = None.
Proof.
  intros Hin%valid_frame_subseteq.
  destruct (ir.2 !! "_dedupe_key") eqn:Hk; [|done].
  exfalso. apply dedupe_key_not_canonical.
  apply (canonical_frame_columns m d df), (rows_within_canonical_frame m d df ir); eauto.
Qed.

(** The rows kept by the deduplication are valid rows, each with its
    key attached. *)
Lemma kept_rows_inv m d dk req df ir :
  let out := canonical_frame infer_datetime timestamp_str m d df in
  ir ∈ keep_last "_dedupe_key" (dedupe_input d (add_dedupe_key dk (valid_frame req out))) →
  ∃ v, v ∈ rows (valid_frame req out)
       ∧ ir = with_key (row_key dk (columns out)) v
       ∧ without_key ir = v.
Proof.
  intros out Hin. apply keep_last_subseteq in Hin.
  rewrite dedupe_input_perm, add_dedupe_key_rows in Hin.
  apply list_elem_of_fmap in Hin as (v & -> & Hv).
  exists v. split; [done|]. split; [done|].
  apply (without_with_key (row_key dk (columns out))).
  by apply (valid_rows_lack_key m d df req).
Qed.

(** *** Validation and deduplication of the cleaned table *)



Lemma cleaned_subseteq_valid m d dk req df :
  rows (cleaned (clean_with m d dk req df))
  ⊆ rows (valid_frame req (canonical_frame infer_datetime timestamp_str m d df)).
Proof.
  intros ir. rewrite cleaned_rows.
  intros (kr & -> & Hkr)%list_elem_of_fmap.
  apply kept_rows_inv in Hkr as (v & Hv & _ & ->). done.
Qed.

Lemma cleaned_subseteq_out m d dk req df :
  rows (cleaned (clean_with m d dk req df))
  ⊆ rows (canonical_frame infer_datetime timestamp_str m d df).
Proof.
  intros ir Hin. by apply cleaned_subseteq_valid, valid_frame_subseteq in Hin.
Qed.





Lemma dedupe_entries_no_row d keyed e : e ∈ (dedupe d keyed).2 → row e = NoRow.
Proof.
  unfold dedupe. case_bool_decide; simpl.
  - by intros (k & -> & _)%list_elem_of_fmap.
  - by intros ?%elem_of_nil.
Qed.

Lemma filter_all {A} (P : A → Prop) `{!∀ x, Decision (P x)} (l : list A) :
  (∀ x, x ∈ l → P x) → filter P l = l.
Proof.
  induction l as [|x l IH]; intros Hall; [done|].
  rewrite filter_cons, decide_True by (apply Hall; left).
  f_equal. apply IH. intros y Hy. apply Hall. by right.
Qed.

Lemma filter_none {A} (P : A → Prop) `{!∀ x, Decision (P x)} (l : list A) :
  (∀ x, x ∈ l → ¬ P x) → filter P l = [].
Proof.
  induction l as [|x l IH]; intros Hall; [done|].
  rewrite filter_cons, decide_False by (apply Hall; left).
  apply IH. intros y Hy. apply Hall. by right.
Qed.


Global Instance Str_inj : Inj (=) (=) Str.
Proof. by intros ?? [= ->]. Qed.



(** *** The source of the dedupe key *)


Lemma key_series_not_email dk ov :
  dk ≠ "email" → key_series dk ov = key_series "full_name" ov.
Proof.
  intros Hdk. unfold key_series.
  by rewrite (bool_decide_eq_false_2 (dk = "email")).
Qed.

Lemma clean_with_other_key m d dk req df :
  dk ≠ "email" → clean_with m d dk req df = clean_with m d "full_name" req df.
Proof.
  intros Hdk. rewrite !clean_with_unfold. unfold add_dedupe_key.
  by rewrite (key_series_not_email dk).
Qed.

Lemma clean_contacts_csv_result df cfg :
  (clean_contacts_csv df cfg).1
  = clean_with (default (_build_auto_mapping (columns df)) (mapping cfg))
      (date_field cfg) (dedupe_key cfg) (required cfg) df.
Proof.
  unfold clean_contacts_csv. cbv zeta. cbn [fst].
  destruct (mapping cfg) as [m|] eqn:Hm.
  - rewrite Hm. reflexivity.
  - reflexivity.
Qed.

(** C9 (amended). A [dedupe_key] outside the two choices is refused
    by the argument parser of the command line only.  Constructing
    the configuration succeeds for any text, and the pipeline treats
    every [dedupe_key] other than ["email"] as ["full_name"]. *)
Theorem dedupe_key_unchecked dk :
  dk ∉ dedupe_key_choices →
  parse_dedupe_key (Some dk) = None
  ∧ (∀ d req m, CleanConfig_init d dk req m = Some (Config d dk req m))
  ∧ (∀ d req m df,
       (clean_contacts_csv df (Config d dk req m)).1
       = (clean_contacts_csv df (Config d "full_name" req m)).1).
Proof.
  intros Hdk. split; [|split].
  - unfold parse_dedupe_key. by rewrite bool_decide_eq_false_2.
  - done.
  - intros d req m df.
    assert (Hne : dk ≠ "email").
    { intros ->. apply Hdk. unfold dedupe_key_choices. left. }
    rewrite !clean_contacts_csv_result.
    cbn [mapping date_field dedupe_key required].
    by apply clean_with_other_key.
Qed.

(** *** The configuration object *)

(** C10. A call on a configuration whose [mapping] is [None] leaves
    in it the mapping derived from the headers of that table; a later
    call with the same object, on any table, leaves the object as it
    is and computes with that first mapping, not with one derived
    from the headers of the later table. *)
Theorem config_keeps_first_mapping df1 df2 cfg :
  mapping cfg = None →
  let '(r1, cfg1) := clean_contacts_csv df1 cfg in
  let '(r2, cfg2) := clean_contacts_csv df2 cfg1 in
  mapping cfg1 = Some (_build_auto_mapping (columns df1))
  ∧ date_field cfg1 = date_field cfg
  ∧ dedupe_key cfg1 = dedupe_key cfg
  ∧ required cfg1 = required cfg
  ∧ cfg2 = cfg1
  ∧ r1 = clean_with (_build_auto_mapping (columns df1))
           (date_field cfg) (dedupe_key cfg) (required cfg) df1
  ∧ r2 = clean_with (_build_auto_mapping (columns df1))
           (date_field cfg) (dedupe_key cfg) (required cfg) df2.
Proof.
  intros Hm. unfold clean_contacts_csv. rewrite Hm.
  cbn [mapping date_field dedupe_key required default]. done.
Qed.

Lemma config_with_mapping_unchanged df cfg m :
  mapping cfg = Some m →
  clean_contacts_csv df cfg
  = (clean_with m (date_field cfg) (dedupe_key cfg) (required cfg) df, cfg).
Proof.
  intros Hm. unfold clean_contacts_csv. rewrite Hm. cbv zeta.
  rewrite Hm. reflexivity.
Qed.

(** *** Field canonicalisation *)

Lemma fmap_cell_at_update_rows c c' g l :
  (λ ir : Z * gmap string cell, cell_at ir.2 c) <$> update_rows c' g l
  = if decide (c' = c)
    then (λ ir, g ir.2) <$> l
    else (λ ir, cell_at ir.2 c) <$> l.
Proof.
  unfold update_rows. rewrite <- list_fmap_compose.
  destruct (decide (c' = c)) as [-> | Hne]; apply list_fmap_ext; intros ? ir _;
    unfold compose; cbn [fst snd]; rewrite cell_at_insert.
  - by rewrite decide_True.
  - by rewrite decide_False.
Qed.

Lemma get_column_normalize_email c out :
  get_column c (normalize_email out)
  = if bool_decide (c = "email" ∧ "email" ∈ columns out)
    then (λ ir, clean_email ir.2) <$> rows out
    else get_column c out.
Proof.
  unfold get_column. rewrite normalize_email_rows.
  case_bool_decide as He.
  - rewrite fmap_cell_at_update_rows.
    destruct (decide ("email" = c)) as [<- | Hne].
    + by rewrite bool_decide_eq_true_2.
    + rewrite bool_decide_eq_false_2; [done|]. intros [-> _]. done.
  - rewrite bool_decide_eq_false_2; [done|]. tauto.
Qed.

Lemma get_column_normalize_full_name c out :
  get_column c (normalize_full_name out)
  = if bool_decide (c = "full_name" ∧ "full_name" ∈ columns out)
    then (λ ir, clean_full_name ir.2) <$> rows out
    else get_column c out.
Proof.
  unfold get_column. rewrite normalize_full_name_rows.
  case_bool_decide as He.
  - rewrite fmap_cell_at_update_rows.
    destruct (decide ("full_name" = c)) as [<- | Hne].
    + by rewrite bool_decide_eq_true_2.
    + rewrite bool_decide_eq_false_2; [done|]. intros [-> _]. done.
  - rewrite bool_decide_eq_false_2; [done|]. tauto.
Qed.

Lemma get_column_build_full_name c out :
  c ≠ "full_name" → get_column c (build_full_name out) = get_column c out.
Proof.
  intros Hc. unfold get_column. rewrite build_full_name_rows.
  destruct (_ && _); [|done].
  rewrite fmap_cell_at_update_rows. by rewrite decide_False.
Qed.

(** Lines 67-81, column by column. *)
Lemma canonicalize_columns_spec m df :
  let p := project m df in
  let out := canonicalize m df in
  let text := λ c : cell, py_str (fillna c) in
  ("full_name" ∉ columns p → "first_name" ∈ columns p → "last_name" ∈ columns p →
     "full_name" ∈ columns out
     ∧ get_column "full_name" (build_full_name p)
       = (λ ir, Str (strip (strip (text (cell_at ir.2 "first_name")) +:+ " "
                            +:+ strip (text (cell_at ir.2 "last_name")))))
         <$> rows p
     ∧ get_column "full_name" out
       = (λ c, Str (strip (collapse_ws (text c))))
         <$> get_column "full_name" (build_full_name p))
  ∧ ("full_name" ∈ columns p →
     get_column "full_name" out
     = (λ c, Str (strip (collapse_ws (text c)))) <$> get_column "full_name" p)
  ∧ ("email" ∈ columns p →
     get_column "email" out = (λ c, Str (lower (strip (text c)))) <$> get_column "email" p)
  ∧ Str (strip (collapse_ws (text NA))) = Str ""
  ∧ Str (lower (strip (text NA))) = Str ""
  ∧ (∀ c v, c = "full_name" ∨ c = "email" → c ∈ columns out →
            v ∈ get_column c out → ∃ s, v = Str s).
Proof.
  intros p out text.
  assert (Hout : out = normalize_email (normalize_full_name (build_full_name p)))
    by reflexivity.
  clearbody out p.
  assert (Hemail : "email" ∈ columns (normalize_full_name (build_full_name p))
                   ↔ "email" ∈ columns p).
  { rewrite normalize_full_name_columns, build_full_name_columns.
    destruct (_ && _); [|done]. rewrite elem_of_app, list_elem_of_singleton.
    split; [intros [? | ?]; done | tauto]. }
  assert (Hfull : "full_name" ∈ columns (build_full_name p) →
                  get_column "full_name" out
                  = (λ c, Str (strip (collapse_ws (text c))))
                      <$> get_column "full_name" (build_full_name p)).
  { intros Hf. rewrite Hout, get_column_normalize_email.
    rewrite bool_decide_eq_false_2 by (by intros [? _]).
    rewrite get_column_normalize_full_name.
    rewrite bool_decide_eq_true_2 by done.
    unfold get_column. by rewrite <- list_fmap_compose. }
  assert (Hpre : get_column "email" (normalize_full_name (build_full_name p))
                 = get_column "email" p).
  { rewrite get_column_normalize_full_name.
    rewrite bool_decide_eq_false_2 by (by intros [? _]).
    by apply get_column_build_full_name. }
  assert (Hmail : "email" ∈ columns p →
                  get_column "email" out
                  = (λ c, Str (lower (strip (text c)))) <$> get_column "email" p).
  { intros He. rewrite Hout, get_column_normalize_email.
    rewrite bool_decide_eq_true_2 by (split; [done | by apply Hemail]).
    rewrite <- Hpre. unfold get_column. by rewrite <- list_fmap_compose. }
  split; [|split; [|split; [|split; [|split]]]].
  - intros Hn Hf Hl.
    assert (Hb : columns (build_full_name p) = columns p ++ ["full_name"]).
    { rewrite build_full_name_columns. by rewrite !bool_decide_eq_true_2. }
    assert (Hin : "full_name" ∈ columns (build_full_name p)).
    { rewrite Hb, elem_of_app, list_elem_of_singleton. by right. }
    split; [|split].
    + by rewrite Hout, normalize_email_columns, normalize_full_name_columns.
    + unfold get_column. rewrite build_full_name_rows, !bool_decide_eq_true_2 by done.
      cbn [andb]. rewrite fmap_cell_at_update_rows. by rewrite decide_True.
    + by apply Hfull.
  - intros Hf.
    assert (Hsame : build_full_name p = p).
    { unfold build_full_name.
      by rewrite (bool_decide_eq_false_2 ("full_name" ∉ _)) by tauto. }
    assert (Hf' : "full_name" ∈ columns (build_full_name p)) by (by rewrite Hsame).
    rewrite (Hfull Hf'). by rewrite Hsame.
  - exact Hmail.
  - reflexivity.
  - reflexivity.
  - intros c v [-> | ->] Hc Hv.
    + rewrite Hout, normalize_email_columns, normalize_full_name_columns in Hc.
      rewrite (Hfull Hc) in Hv.
      apply list_elem_of_fmap in Hv as (? & -> & _). eauto.
    + rewrite Hout, normalize_email_columns in Hc.
      apply Hemail in Hc. rewrite (Hmail Hc) in Hv.
      apply list_elem_of_fmap in Hv as (? & -> & _). eauto.
Qed.

(** *** A second run *)



Lemma col_has_set_other P c c' vals f :
  c ≠ c' → col_has P c f → col_has P c (set_column c' vals f).
Proof.
  intros Hne Hf Hc ir' Hin.
  rewrite set_column_columns, elem_of_add_column in Hc.
  destruct Hc as [? | Hc]; [done|].
  apply set_column_rows_inv in Hin as (ir & v & Hin & ->). cbn [snd].
  rewrite lookup_insert_ne by done. by apply Hf.
Qed.

Lemma col_has_update_rows P c g f f' :
  rows f' = update_rows c g (rows f) → (∀ r, P (g r)) → col_has P c f'.
Proof.
  intros Hrows Hg _ ir' Hin. rewrite Hrows in Hin.
  apply list_elem_of_fmap in Hin as (ir & -> & _). cbn [snd].
  rewrite lookup_insert_eq. eauto.
Qed.

Lemma col_has_parse_date d out : col_has is_datetime d (parse_date d out).
Proof.
  intros Hc ir' Hin. rewrite parse_date_columns in Hc.
  unfold parse_date in Hin. rewrite bool_decide_eq_true_2 in Hin by done.
  unfold set_column in Hin. cbn [rows] in Hin.
  apply list_elem_of_lookup in Hin as [k Hk].
  rewrite list_lookup_imap in Hk.
  destruct (rows out !! k) as [ir|] eqn:Hir; [|done].
  cbn in Hk. injection Hk as <-. cbn [snd]. rewrite lookup_insert_eq.
  eexists. split; [done|].
  destruct (get_column d out !! k) as [c|] eqn:Hcol.
  - destruct (to_datetime_lookup _ _ _ Hcol) as (c' & -> & Hdt & _). done.
  - assert (Hlen : to_datetime (get_column d out) !! k = None).
    { apply lookup_ge_None. rewrite to_datetime_length. by apply lookup_ge_None. }
    by rewrite Hlen.
Qed.

Lemma build_full_name_shape out :
  build_full_name out = out ∨ ∃ vals, build_full_name out = set_column "full_name" vals out.
Proof. unfold build_full_name. destruct (_ && _); [right; by eexists | by left]. Qed.

Lemma normalize_full_name_shape out :
  normalize_full_name out = out
  ∨ ∃ vals, normalize_full_name out = set_column "full_name" vals out.
Proof. unfold normalize_full_name. case_bool_decide; [right; by eexists | by left]. Qed.

Lemma normalize_email_shape out :
  normalize_email out = out ∨ ∃ vals, normalize_email out = set_column "email" vals out.
Proof. unfold normalize_email. case_bool_decide; [right; by eexists | by left]. Qed.

Lemma parse_date_shape d out :
  parse_date d out = out ∨ ∃ vals, parse_date d out = set_column d vals out.
Proof. unfold parse_date. case_bool_decide; [right; by eexists | by left]. Qed.


Lemma col_has_normalize_full_name out :
  col_has tidy_name "full_name" (normalize_full_name out).
Proof.
  intros Hc. rewrite normalize_full_name_columns in Hc.
  apply (col_has_update_rows tidy_name "full_name" clean_full_name out).
  - by rewrite normalize_full_name_rows, bool_decide_eq_true_2.
  - intros r. by eexists.
  - by rewrite normalize_full_name_columns.
Qed.

Lemma col_has_normalize_email out :
  col_has tidy_email "email" (normalize_email out).
Proof.
  intros Hc. rewrite normalize_email_columns in Hc.
  apply (col_has_update_rows tidy_email "email" clean_email out).
  - by rewrite normalize_email_rows, bool_decide_eq_true_2.
  - intros r. by eexists.
  - by rewrite normalize_email_columns.
Qed.


Lemma canonical_full_name_tidy m d df :
  d ≠ "full_name" →
  col_has tidy_name "full_name" (canonical_frame infer_datetime timestamp_str m d df).
Proof.
  intros Hd. unfold canonical_frame, canonicalize.
  destruct (parse_date_shape d (normalize_email (normalize_full_name
              (build_full_name (project m df))))) as [-> | [? ->]];
    [|apply col_has_set_other; [done|]];
  (destruct (normalize_email_shape (normalize_full_name
              (build_full_name (project m df)))) as [-> | [? ->]];
    [|apply col_has_set_other; [done|]]);
  apply col_has_normalize_full_name.
Qed.

Lemma canonical_email_tidy m d df :
  d ≠ "email" →
  col_has tidy_email "email" (canonical_frame infer_datetime timestamp_str m d df).
Proof.
  intros Hd. unfold canonical_frame, canonicalize.
  destruct (parse_date_shape d (normalize_email (normalize_full_name
              (build_full_name (project m df))))) as [-> | [? ->]];
    [|apply col_has_set_other; [done|]];
  apply col_has_normalize_email.
Qed.

(** Unless the date field names it, a [full_name] or [email] column
    holds a text in every row when the validation starts. *)
Lemma canonical_text_columns m d df c ir :
  c = "full_name" ∨ c = "email" → c ≠ d →
  c ∈ columns (canonical_frame infer_datetime timestamp_str m d df) →
  ir ∈ rows (canonical_frame infer_datetime timestamp_str m d df) →
  ∃ s, ir.2 !! c = Some (Str s).
Proof.
  intros [-> | ->] Hd Hc Hin.
  - destruct (canonical_full_name_tidy m d df (not_eq_sym Hd) Hc ir Hin)
      as (v & Hv & x & ->). eauto.
  - destruct (canonical_email_tidy m d df (not_eq_sym Hd) Hc ir Hin)
      as (v & Hv & x & ->). eauto.
Qed.

(** C7 (amended). On the columns that the projection yields: when
    [full_name] is not among them and [first_name] and [last_name]
    are, a [full_name] is built as the trim of the trimmed first name,
    a space and the trimmed last name; a [full_name], given or built,
    ends with its whitespace runs replaced by one space each and
    trimmed, which is its words joined by single spaces; an [email]
    ends trimmed and in lower case; a missing value of either gives
    the empty text, and every cell of the two columns is a text when
    the canonicalisation ends.  The texts stay: when the validation
    starts and in the cleaned table every cell of the two columns is
    a text, unless the date field names the column (line 85 then puts
    the parsed dates in its place, a missing value for every text that
    is no date). *)
Theorem canonicalize_fields m df :
  let p := project m df in
  let out := canonicalize m df in
  let text := λ c : cell, py_str (fillna c) in
  ("full_name" ∉ columns p → "first_name" ∈ columns p → "last_name" ∈ columns p →
     "full_name" ∈ columns out
     ∧ get_column "full_name" (build_full_name p)
       = (λ ir, Str (strip (strip (text (cell_at ir.2 "first_name")) +:+ " "
                            +:+ strip (text (cell_at ir.2 "last_name")))))
         <$> rows p
     ∧ get_column "full_name" out
       = (λ c, Str (strip (collapse_ws (text c))))
         <$> get_column "full_name" (build_full_name p))
  ∧ ("full_name" ∈ columns p →
     get_column "full_name" out
     = (λ c, Str (strip (collapse_ws (text c)))) <$> get_column "full_name" p)
  ∧ ("email" ∈ columns p →
     get_column "email" out = (λ c, Str (lower (strip (text c)))) <$> get_column "email" p)
  ∧ Str (strip (collapse_ws (text NA))) = Str ""
  ∧ Str (lower (strip (text NA))) = Str ""
  ∧ (∀ c v, c = "full_name" ∨ c = "email" → c ∈ columns out →
            v ∈ get_column c out → ∃ s, v = Str s)
  ∧ (∀ s, strip (collapse_ws s) = join " " (split s))
  ∧ strip (collapse_ws "  Mary   Jo ") = "Mary Jo"
  ∧ lower (strip " Ann@X.COM ") = "ann@x.com"
  ∧ strip (strip (text (Str "Ann")) +:+ " " +:+ strip (text (Str "Lee"))) = "Ann Lee"
  ∧ strip (strip (text (Str " Ann ")) +:+ " " +:+ strip (text NA)) = "Ann"
  ∧ (∀ d c ir, c = "full_name" ∨ c = "email" → c ≠ d →
       c ∈ columns (canonical_frame infer_datetime timestamp_str m d df) →
       ir ∈ rows (canonical_frame infer_datetime timestamp_str m d df) →
       ∃ s, ir.2 !! c = Some (Str s))
  ∧ (∀ d dk req c ir, c = "full_name" ∨ c = "email" → c ≠ d →
       c ∈ columns (cleaned (clean_with m d dk req df)) →
       ir ∈ rows (cleaned (clean_with m d dk req df)) →
       ∃ s, ir.2 !! c = Some (Str s)).
Proof.
  intros p out text.
  destruct (canonicalize_columns_spec m df) as (H1 & H2 & H3 & H4 & H5 & H6).
  split; [exact H1|]. split; [exact H2|]. split; [exact H3|].
  split; [exact H4|]. split; [exact H5|]. split; [exact H6|].
  split; [exact strip_collapse_words|].
  split; [vm_compute; reflexivity|]. split; [vm_compute; reflexivity|].
  split; [vm_compute; reflexivity|]. split; [vm_compute; reflexivity|].
  split.
  - intros d c ir. apply canonical_text_columns.
  - intros d dk req c ir Hc Hd Hcol Hin.
    apply cleaned_columns in Hcol. apply cleaned_subseteq_out in Hin.
    by apply (canonical_text_columns m d df c ir).
Qed.















Lemma canonical_cols_names c : c ∈ canonical_cols ↔ c ∈ COMMON_ALIASES.*1.
Proof. unfold canonical_cols. by rewrite elem_of_list_to_set. Qed.


Lemma dedupe_entries_nil d keyed :
  NoDup ((λ r : Z * gmap string cell, cell_at r.2 "_dedupe_key") <$> rows keyed) →
  (dedupe d keyed).2 = [].
Proof.
  intros Hnd. unfold dedupe. case_bool_decide; [|done]. cbn [snd].
  rewrite filter_none; [done|].
  intros [x n] Hin. unfold groupby_size in Hin.
  apply list_elem_of_fmap in Hin as (y & [= -> ->] & _). cbn [snd].
  apply Nat.le_ngt, count_occ_cell_NoDup.
  unfold get_column, sort_values. cbn [rows].
  by rewrite stable_sort_perm.
Qed.



End StageLemmas.

(** ** The normal form of a header, continued *)

Lemma split_words s : Forall word (split s).
Proof.
  induction s as [|c s IH]; [constructor|]. rewrite split_cons.
  destruct (isspace c) eqn:Hc; [done|].
  destruct (at_gap s).
  - constructor; [|done]. split; [done|]. cbn [solid]. by rewrite Hc.
  - destruct (split s) as [|w ws].
    + constructor; [|done]. split; [done|]. cbn [solid]. by rewrite Hc.
    + apply Forall_cons in IH as [[_ Hw] Hws]. constructor; [|done].
      split; [done|]. cbn [solid]. by rewrite Hc, Hw.
Qed.

Lemma split_word_then w s :
  word w → at_gap s = true → split (w +:+ s) = w :: split s.
Proof.
  intros [Hne Hw] Hs. induction w as [|c w IH]; [done|].
  cbn [solid] in Hw. apply andb_prop in Hw as [Hc Hw].
  apply negb_true_iff in Hc.
  change (String c w +:+ s) with (String c (w +:+ s)).
  rewrite split_cons, Hc.
  destruct w as [|d w].
  - change (EmptyString +:+ s) with s. by rewrite Hs.
  - rewrite IH by done.
    change (String d w +:+ s) with (String d (w +:+ s)). cbn [at_gap].
    cbn [solid] in Hw. apply andb_prop in Hw as [Hd _].
    apply negb_true_iff in Hd. by rewrite Hd.
Qed.

Lemma append_empty w : w +:+ EmptyString = w.
Proof. induction w as [|c w IH]; [done|]. change (String c w +:+ EmptyString) with (String c (w +:+ EmptyString)). by rewrite IH. Qed.

Lemma split_join ws : Forall word ws → split (join " " ws) = ws.
Proof.
  induction ws as [|w ws IH]; [done|]. intros [Hw Hws]%Forall_cons.
  destruct ws as [|w' ws].
  - cbn [join]. rewrite <- (append_empty w) at 1.
    by rewrite (split_word_then w EmptyString).
  - change (join " " (w :: w' :: ws)) with (w +:+ " " +:+ join " " (w' :: ws)).
    rewrite split_word_then by done.
    change (" " +:+ join " " (w' :: ws)) with (String " " (join " " (w' :: ws))).
    rewrite split_cons. cbn [isspace]. by rewrite IH.
Qed.

Lemma fold_char_idem c : fold_char (fold_char c) = fold_char c.
Proof. by destruct c as [[] [] [] [] [] [] [] []]. Qed.

Lemma split_fold_normal h :
  split (map_chars fold_char (_normalize_header h)) = split (map_chars fold_char h).
Proof.
  rewrite normalize_header_chars.
  rewrite (split_map_chars fold_char (join " " _)) by apply isspace_fold_char.
  rewrite split_join by apply split_words.
  rewrite <- split_map_chars by apply isspace_fold_char.
  rewrite map_chars_compose. f_equal. apply map_chars_ext, fold_char_idem.
Qed.

(** X12. [_normalize_header] is idempotent: a normal form is its own
    normal form. *)
Theorem normalize_header_idempotent h :
  _normalize_header (_normalize_header h) = _normalize_header h.
Proof.
  rewrite (normalize_header_chars (_normalize_header h)), split_fold_normal.
  by rewrite <- normalize_header_chars.
Qed.

(** X13. Two headers have the same normal form exactly when they have
    the same words once every letter is in lower case and every
    underscore is a space. *)
Theorem normalize_header_same_words h1 h2 :
  _normalize_header h1 = _normalize_header h2
  ↔ split (map_chars fold_char h1) = split (map_chars fold_char h2).
Proof.
  split.
  - intros H. by rewrite <- (split_fold_normal h1), <- (split_fold_normal h2), H.
  - intros H. by rewrite !normalize_header_chars, H.
Qed.

(** ** The auto-mapper, continued *)

Lemma aliases_not_blank :
  Forall (λ ca : string * list string,
            Forall (λ a, _normalize_header a ≠ EmptyString) ca.2) COMMON_ALIASES.
Proof. apply (bool_decide_unpack _). by vm_compute. Qed.

Lemma auto_mapping_lookup_inv cols c h :
  _build_auto_mapping cols !! c = Some h →
  ∃ aliases a,
    (c, aliases) ∈ COMMON_ALIASES ∧ a ∈ aliases
    ∧ h ∈ cols ∧ h ≠ EmptyString
    ∧ _normalize_header h = _normalize_header a.
Proof.
  intros Hm.
  destruct (decide (c ∈ COMMON_ALIASES.*1)) as [Hc | Hc].
  2:{ by rewrite build_auto_mapping_other in Hm. }
  apply list_elem_of_fmap in Hc as ([c' aliases] & -> & Hin). cbn [fst] in Hm.
  rewrite (build_auto_mapping_lookup cols c' aliases Hin) in Hm.
  apply first_alias_Some in Hm as (a & Ha & Hr).
  rewrite reverse_lookup in Hr. apply last_header_Some in Hr as [Hk Hn].
  rewrite elem_of_header_keys in Hk.
  exists aliases, a. repeat split; try done.
  intros ->. pose proof aliases_not_blank as Hall.
  rewrite Forall_forall in Hall. specialize (Hall _ Hin). cbn [snd] in Hall.
  rewrite Forall_forall in Hall. by apply (Hall a Ha).
Qed.

(** X14. Whatever the auto-mapper maps is sound: the field is one of
    the canonical fields, and the header is a non-empty header of the
    table with the normal form of one of the aliases of that field. *)
Theorem auto_mapping_sound cols c h :
  _build_auto_mapping cols !! c = Some h →
  ∃ aliases a,
    (c, aliases) ∈ COMMON_ALIASES ∧ a ∈ aliases
    ∧ h ∈ cols ∧ h ≠ EmptyString
    ∧ _normalize_header h = _normalize_header a.
Proof. apply auto_mapping_lookup_inv. Qed.

(** ** The required fields of the command line *)

Lemma split_on_cons sep c s :
  split_on sep (String c s)
  = if Ascii.eqb c sep then EmptyString :: split_on sep s
    else match split_on sep s with
         | w :: ws => String c w :: ws
         | [] => [String c EmptyString]
         end.
Proof. reflexivity. Qed.

Lemma split_on_pieces sep s : Forall (λ w, sep ∉ chars w) (split_on sep s).
Proof.
  induction s as [|c s IH]; [by repeat constructor; cbn; apply not_elem_of_nil|].
  rewrite split_on_cons. destruct (Ascii.eqb c sep) eqn:Hc.
  - constructor; [apply not_elem_of_nil | done].
  - apply Ascii.eqb_neq in Hc.
    destruct (split_on sep s) as [|w ws].
    + constructor; [|done]. cbn [chars]. set_solver.
    + apply Forall_cons in IH as [Hw Hws]. constructor; [|done].
      cbn [chars]. set_solver.
Qed.

Lemma chars_lstrip s : chars (lstrip s) ⊆ chars s.
Proof.
  induction s as [|c s IH]; [done|]. cbn [lstrip chars].
  destruct (isspace c); [set_solver | done].
Qed.

Lemma chars_rstrip s : chars (rstrip s) ⊆ chars s.
Proof.
  induction s as [|c s IH]; [done|]. cbn [rstrip chars].
  destruct (rstrip s) as [|d r].
  - destruct (isspace c); cbn [chars]; set_solver.
  - cbn [chars] in *. set_solver.
Qed.

Lemma chars_strip s : chars (strip s) ⊆ chars s.
Proof. unfold strip. etrans; [apply chars_rstrip | apply chars_lstrip]. Qed.

(** X16. The required fields that [main] hands to the pipeline: every
    entry is a piece of the option between two commas with the
    whitespace around it removed; none is empty and none holds a
    comma. *)
Theorem parse_required_entries arg q :
  q ∈ parse_required arg →
  q ≠ EmptyString ∧ strip q = q ∧ ("," % char ∉ chars q)
  ∧ ∃ piece, piece ∈ split_on "," arg ∧ q = strip piece.
Proof.
  unfold parse_required.
  intros (piece & -> & [Hne Hin]%list_elem_of_filter)%list_elem_of_fmap.
  split; [done|]. split; [apply strip_idem|]. split; [|by exists piece].
  intros Hc. apply chars_strip in Hc.
  pose proof (split_on_pieces "," arg) as Hall.
  rewrite Forall_forall in Hall. by apply (Hall piece Hin).
Qed.

Lemma split_on_free sep w : sep ∉ chars w → split_on sep w = [w].
Proof.
  induction w as [|c w IH]; [done|]. cbn [chars]. intros Hc.
  apply not_elem_of_cons in Hc as [Hne Hc].
  rewrite split_on_cons.
  destruct (Ascii.eqb_spec c sep) as [-> | _]; [done|].
  by rewrite IH.
Qed.

Lemma split_on_app sep w s :
  sep ∉ chars w → split_on sep (w +:+ String sep s) = w :: split_on sep s.
Proof.
  induction w as [|c w IH]; cbn [chars]; intros Hc.
  - change (EmptyString +:+ String sep s) with (String sep s).
    by rewrite split_on_cons, Ascii.eqb_refl.
  - apply not_elem_of_cons in Hc as [Hne Hc].
    change (String c w +:+ String sep s) with (String c (w +:+ String sep s)).
    rewrite split_on_cons.
    destruct (Ascii.eqb_spec c sep) as [-> | _]; [done|].
    by rewrite IH.
Qed.

Lemma split_on_join sep ws :
  ws ≠ [] → Forall (λ w, sep ∉ chars w) ws →
  split_on sep (join (String sep EmptyString) ws) = ws.
Proof.
  induction ws as [|w ws IH]; [done|]. intros _ [Hw Hws]%Forall_cons.
  destruct ws as [|w' ws].
  - cbn [join]. by apply split_on_free.
  - change (join (String sep EmptyString) (w :: w' :: ws))
      with (w +:+ String sep EmptyString +:+ join (String sep EmptyString) (w' :: ws)).
    change (String sep EmptyString +:+ join (String sep EmptyString) (w' :: ws))
      with (String sep (join (String sep EmptyString) (w' :: ws))).
    rewrite split_on_app by done. by rewrite IH.
Qed.

(** X17. Round trip of the option [--required]: a list of fields that
    are not empty, have no whitespace around them and hold no comma,
    written with commas between them, is read back as it is. *)
Theorem parse_required_join req :
  Forall (λ q, q ≠ EmptyString ∧ strip q = q ∧ ("," % char ∉ chars q)) req →
  parse_required (join "," req) = req.
Proof.
  intros Hreq. unfold parse_required.
  destruct req as [|q req]; [done|].
  rewrite (split_on_join "," (q :: req)); [|done|].
  2:{ eapply Forall_impl; [exact Hreq|]. by intros ? (_ & _ & ?). }
  rewrite Forall_forall in Hreq.
  rewrite filter_all.
  2:{ intros x Hx. destruct (Hreq x Hx) as (Hne & Hs & _). by rewrite Hs. }
  rewrite <- (list_fmap_id (q :: req)) at 2.
  apply Forall_fmap_ext_1, Forall_forall. intros x Hx. by destruct (Hreq x Hx) as (_ & Hs & _).
Qed.


(** ** Further properties of the pipeline *)

Section Coverage.

Variable infer_datetime : list cell → nat → option Z.
Variable timestamp_str : Z → string.

Local Abbreviation py_str := (py_str timestamp_str).
Local Abbreviation clean_with := (clean_with infer_datetime timestamp_str).
Local Abbreviation clean_contacts_csv := (clean_contacts_csv infer_datetime timestamp_str).
Local Abbreviation canonical_frame := (canonical_frame infer_datetime timestamp_str).
Local Abbreviation row_key := (row_key timestamp_str).
Local Abbreviation dedupe := (dedupe timestamp_str).
Local Abbreviation add_dedupe_key := (add_dedupe_key timestamp_str).
Local Abbreviation canonicalize := (canonicalize timestamp_str).
Local Abbreviation parse_date := (parse_date infer_datetime).
Local Abbreviation to_datetime := (to_datetime infer_datetime).


(** *** The report *)

Lemma dedupe_entries_shape d keyed e :
  e ∈ (dedupe d keyed).2 →
  row e = NoRow ∧ ∃ k, reason e = "deduped_removed_duplicates:key=" +:+ k.
Proof.
  unfold dedupe. case_bool_decide; cbn [snd].
  - intros (k & -> & _)%list_elem_of_fmap. split; [done|]. by eexists.
  - by intros ?%elem_of_nil.
Qed.

(** X1. The report lists first the rejected rows, in the order of the
    input and each under its ordinal, and after them the entries of the
    deduplication, each under the sentinel and naming a key. *)
Theorem report_rejections_then_duplicates m d dk req df :
  let out := canonical_frame m d df in
  ∃ duplicates,
    report (clean_with m d dk req df)
    = ((λ ir : Z * gmap string cell,
          Entry (Ordinal ir.1)
            ("missing_required:" +:+ join "," (missing_required req (columns out) ir.2)))
         <$> filter (λ ir, missing_required req (columns out) ir.2 ≠ []) (rows out))
      ++ duplicates
    ∧ ∀ e, e ∈ duplicates →
           row e = NoRow ∧ ∃ k, reason e = "deduped_removed_duplicates:key=" +:+ k.
Proof.
  intros out. eexists. split.
  - unfold out. rewrite report_eq. reflexivity.
  - intros e. apply dedupe_entries_shape.
Qed.

Lemma count_occ_cell_Str k (keys : list string) :
  count_occ_cell (Str k) (Str <$> keys) = length (filter (λ k', k' = k) keys).
Proof.
  unfold count_occ_cell. induction keys as [|x keys IH]; [done|].
  rewrite fmap_cons, !filter_cons.
  destruct (decide (x = k)) as [-> | Hne].
  - rewrite decide_True by done. cbn [length]. by rewrite IH.
  - rewrite decide_False by congruence. done.
Qed.

Lemma report_with_date d keyed :
  d ∈ columns keyed →
  ∃ reported,
    (dedupe d keyed).2
    = (λ k, Entry NoRow ("deduped_removed_duplicates:key=" +:+ py_str k)) <$> reported
    ∧ NoDup reported
    ∧ ∀ k, k ∈ reported
           ↔ 1 < count_occ_cell k
                   ((λ r : Z * gmap string cell, cell_at r.2 "_dedupe_key") <$> rows keyed).
Proof.
  intros Hd. unfold dedupe. rewrite bool_decide_eq_true_2 by done. cbn [snd].
  eexists. split; [reflexivity|].
  unfold groupby_size.
  set (keys := (λ r : Z * gmap string cell, cell_at r.2 "_dedupe_key") <$> rows keyed).
  set (sorted := get_column "_dedupe_key" (sort_values "_dedupe_key" d keyed)).
  assert (Hperm : sorted ≡ₚ keys).
  { unfold sorted, keys, get_column, sort_values. cbn [rows]. by rewrite stable_sort_perm. }
  assert (Hmem : ∀ k, k ∈ (filter (λ kn : cell * nat, 1 < kn.2)
                          ((λ x, (x, count_occ_cell x sorted)) <$> distinct sorted)).*1
                      ↔ 1 < count_occ_cell k keys).
  { intros k. rewrite list_elem_of_fmap. split.
    - intros ([k' n] & -> & [Hn Hin]%list_elem_of_filter). cbn [fst snd] in *.
      apply list_elem_of_fmap in Hin as (? & [= <- ->] & _).
      by rewrite <- (count_occ_cell_perm k' _ _ Hperm).
    - intros Hn. exists (k, count_occ_cell k sorted). split; [reflexivity|].
      apply list_elem_of_filter. cbn [snd].
      split; [by rewrite (count_occ_cell_perm k _ _ Hperm)|].
      apply list_elem_of_fmap. exists k. split; [done|].
      rewrite (elem_of_distinct infer_datetime), Hperm.
      unfold count_occ_cell in Hn.
      destruct (filter (λ y, y = k) keys) as [|z zs] eqn:Hf; [cbn in Hn; lia|].
      assert (Hz : z ∈ filter (λ y, y = k) keys) by (rewrite Hf; left).
      apply list_elem_of_filter in Hz as [Hzk Hz]. by rewrite <- Hzk. }
  split; [|exact Hmem].
  assert (Hnd : NoDup (distinct sorted)) by apply (NoDup_distinct infer_datetime).
  revert Hnd. generalize (distinct sorted). intros l Hnd.
  induction Hnd as [|x l Hx Hl IH]; [constructor|].
  rewrite fmap_cons, filter_cons. cbn [snd].
  destruct (decide (1 < count_occ_cell x sorted)); [|done].
  rewrite fmap_cons. cbn [fst]. constructor; [|done].
  intros Hin. apply Hx.
  apply list_elem_of_fmap in Hin as ([x' n] & -> & [_ Hin]%list_elem_of_filter).
  by apply list_elem_of_fmap in Hin as (? & [= <- _] & ?).
Qed.


Lemma keyed_valid_keys dk req out :
  NoDup (rows out).*1 →
  (λ r : Z * gmap string cell, cell_at r.2 "_dedupe_key")
    <$> rows (add_dedupe_key dk (valid_frame req out))
  = Str <$> ((λ ir : Z * gmap string cell, row_key dk (columns out) ir.2)
               <$> filter (is_valid req (columns out)) (rows out)).
Proof.
  intros Hnd.
  rewrite add_dedupe_key_rows, valid_frame_rows, valid_frame_columns by done.
  unfold update_rows. rewrite <- !list_fmap_compose.
  apply list_fmap_ext. intros ? ir _. unfold compose. cbn [fst snd].
  by rewrite cell_at_insert, decide_True.
Qed.

(** X2. For a table whose row labels are distinct and a date field
    other than [full_name] and [email] (so that the key column holds
    text): with the date field among the canonical columns, the entries
    of the deduplication are one entry for every key that more than one
    valid row has, and no other: no key is reported twice and no key of
    a single row is reported.  (When the date field names the key
    column, line 85 has turned that column into dates, the keys of the
    rows without a date are missing and [groupby] passes them over.) *)
Theorem duplicates_reported_with_date m d dk req df :
  let out := canonical_frame m d df in
  let keys := (λ ir : Z * gmap string cell, row_key dk (columns out) ir.2)
                <$> filter (is_valid req (columns out)) (rows out) in
  NoDup (rows df).*1 →
  d ≠ "full_name" → d ≠ "email" →
  d ∈ columns out →
  ∃ reported : list string,
    filter (λ e, row e = NoRow) (report (clean_with m d dk req df))
    = (λ k, Entry NoRow ("deduped_removed_duplicates:key=" +:+ k)) <$> reported
    ∧ NoDup reported
    ∧ ∀ k, k ∈ reported ↔ 1 < length (filter (λ k', k' = k) keys).
Proof.
  intros out keys Hlabels _ _ Hd.
  destruct (report_with_date d (add_dedupe_key dk (valid_frame req out)))
    as (cells & Hrep & Hnd & Hmem).
  { rewrite add_dedupe_key_columns, elem_of_add_column, valid_frame_columns. by right. }
  rewrite (keyed_valid_keys dk req out) in Hmem
    by (by apply canonical_frame_NoDup).
  fold keys in Hmem.
  assert (Hstr : ∀ c, c ∈ cells → ∃ k, c = Str k).
  { intros c Hc. apply Hmem in Hc.
    unfold count_occ_cell in Hc.
    destruct (filter (λ y, y = c) (Str <$> keys)) as [|z zs] eqn:Hf; [cbn in Hc; lia|].
    assert (Hz : z ∈ filter (λ y, y = c) (Str <$> keys)) by (rewrite Hf; left).
    apply list_elem_of_filter in Hz as [-> Hz].
    apply list_elem_of_fmap in Hz as (k & -> & _). eauto. }
  exists (py_str <$> cells). split; [|split].
  - unfold out. rewrite report_eq, filter_app.
    rewrite filter_none, app_nil_l.
    2:{ intros e (ir & -> & _)%list_elem_of_fmap. done. }
    rewrite filter_all by (intros e He; by apply dedupe_entries_shape in He as [? _]).
    fold out. rewrite Hrep. by rewrite <- list_fmap_compose.
  - apply NoDup_fmap_2_strong; [|done].
    intros x y Hx Hy Heq.
    destruct (Hstr x Hx) as [kx ->], (Hstr y Hy) as [ky ->]. cbn in Heq. by subst.
  - intros k. rewrite <- (count_occ_cell_Str k keys), <- Hmem.
    rewrite list_elem_of_fmap. split.
    + intros (c & -> & Hc). destruct (Hstr c Hc) as [k' ->]. done.
    + intros Hc. exists (Str k). split; [reflexivity | exact Hc].
Qed.


(** *** Edge cases and columns *)

(** X4. A table without rows gives a cleaned table without rows and an
    empty report, under every configuration. *)
Theorem empty_table_empty_result m d dk req df :
  rows df = [] →
  rows (cleaned (clean_with m d dk req df)) = [] ∧ report (clean_with m d dk req df) = [].
Proof.
  intros Hdf.
  assert (Hout : rows (canonical_frame m d df) = []).
  { apply (fmap_nil_inv fst). by rewrite canonical_frame_labels, Hdf. }
  assert (Hkeyed : rows (add_dedupe_key dk (valid_frame req (canonical_frame m d df))) = []).
  { rewrite add_dedupe_key_rows, valid_frame_rows by (rewrite Hout; constructor).
    by rewrite Hout. }
  split.
  - rewrite cleaned_rows. cbv zeta.
    assert (Hin : dedupe_input d (add_dedupe_key dk
                    (valid_frame req (canonical_frame m d df))) = []).
    { apply Permutation_nil_r. rewrite dedupe_input_perm. by rewrite Hkeyed. }
    by rewrite Hin.
  - rewrite report_eq, Hout, filter_nil, fmap_nil, app_nil_l.
    apply dedupe_entries_nil. rewrite Hkeyed. constructor.
Qed.

Lemma cleaned_columns_mapped m d dk req df c :
  let mapped := λ c, c ∈ canonical_cols
                     ∧ ∃ src, m !! c = Some src ∧ src ≠ "" ∧ src ∈ columns df in
  c ∈ columns (cleaned (clean_with m d dk req df))
  ↔ mapped c ∨ (c = "full_name" ∧ mapped "first_name" ∧ mapped "last_name").
Proof.
  intros mapped.
  assert (Hp : ∀ c, c ∈ columns (project m df) ↔ mapped c).
  { intros c'. rewrite elem_of_project. unfold mapped, picked.
    split; intros [Hc Hs]; (split; [done|]).
    - destruct (m !! c') as [src|]; [|by destruct Hs].
      exists src. split; [done|].
      destruct (bool_decide (src ≠ "")) eqn:H1;
        destruct (bool_decide (src ∈ columns df)) eqn:H2; cbn in Hs;
        try (by destruct Hs).
      by apply bool_decide_eq_true_1 in H1, H2.
    - destruct Hs as (src & -> & H1 & H2).
      rewrite !bool_decide_eq_true_2 by done. cbn. eauto. }
  rewrite cleaned_columns. unfold canonical_frame.
  rewrite parse_date_columns, canonicalize_columns, !Hp. done.
Qed.

(** X5. The columns of the cleaned table: a canonical field is a column
    exactly when the mapping gives it a non-empty header that the table
    has; besides, [full_name] is a column when [first_name] and
    [last_name] both are.  Other keys of the mapping, empty headers and
    headers that the table lacks are passed over. *)
Theorem cleaned_columns_from_mapping m d dk req df c :
  let mapped := λ c, c ∈ canonical_cols
                     ∧ ∃ src, m !! c = Some src ∧ src ≠ "" ∧ src ∈ columns df in
  c ∈ columns (cleaned (clean_with m d dk req df))
  ↔ mapped c ∨ (c = "full_name" ∧ mapped "first_name" ∧ mapped "last_name").
Proof. apply cleaned_columns_mapped. Qed.


Lemma get_column_set_other c c' vals f :
  c ≠ c' → get_column c (set_column c' vals f) = get_column c f.
Proof.
  intros Hne. unfold get_column, set_column. cbn [rows].
  apply list_eq. intros k. rewrite !list_lookup_fmap, list_lookup_imap.
  destruct (rows f !! k) as [ir|]; [|done]. cbn.
  by rewrite cell_at_insert, decide_False.
Qed.

Lemma get_column_project m df c src :
  c ∈ canonical_cols → picked m df c = Some src →
  get_column c (project m df) = get_column src df.
Proof.
  intros Hc Hp. unfold get_column. rewrite project_rows, <- list_fmap_compose.
  apply list_fmap_ext. intros ? ir _. unfold compose, cell_at. cbn [snd].
  rewrite lookup_project_row, Hp.
  by rewrite bool_decide_eq_true_2 by (by apply elem_of_elements).
Qed.

(** X6. A canonical column other than [full_name], [email] and the date
    field holds the values of its source column as they are, row by
    row. *)
Theorem other_columns_copied m d df c src :
  c ∈ canonical_cols → m !! c = Some src → src ≠ "" → src ∈ columns df →
  c ≠ "full_name" → c ≠ "email" → c ≠ d →
  get_column c (canonical_frame m d df) = get_column src df.
Proof.
  intros Hc Hm H1 H2 Hfn Hem Hd.
  assert (Hp : picked m df c = Some src).
  { unfold picked. rewrite Hm. by rewrite !bool_decide_eq_true_2. }
  unfold canonical_frame, canonicalize.
  destruct (parse_date_shape infer_datetime d
              (normalize_email timestamp_str (normalize_full_name timestamp_str
                 (build_full_name timestamp_str (project m df)))))
    as [-> | [? ->]]; [|rewrite get_column_set_other by done];
  (destruct (normalize_email_shape timestamp_str
               (normalize_full_name timestamp_str
                  (build_full_name timestamp_str (project m df))))
     as [-> | [? ->]]; [|rewrite get_column_set_other by done]);
  (destruct (normalize_full_name_shape timestamp_str
               (build_full_name timestamp_str (project m df)))
     as [-> | [? ->]]; [|rewrite get_column_set_other by done]);
  (destruct (build_full_name_shape timestamp_str (project m df))
     as [-> | [? ->]]; [|rewrite get_column_set_other by done]);
  by apply get_column_project.
Qed.

(** X7. When the date field is a column of the cleaned table, every
    row holds there a timestamp or the missing value, never a text or a
    number. *)
Theorem date_column_parsed m d dk req df ir :
  d ∈ columns (cleaned (clean_with m d dk req df)) →
  ir ∈ rows (cleaned (clean_with m d dk req df)) →
  ∃ v, ir.2 !! d = Some v ∧ (v = NA ∨ ∃ t, v = Ts t).
Proof.
  intros Hd Hin.
  apply cleaned_columns in Hd.
  apply cleaned_subseteq_out in Hin.
  destruct (col_has_parse_date infer_datetime timestamp_str d
              (canonicalize m df) Hd ir Hin) as (v & Hv & Hdt).
  exists v. split; [done|].
  destruct v; cbn in Hdt; try done; eauto.
Qed.


(** *** Which row of a key is kept *)

Lemma keep_last_split k l x :
  x ∈ keep_last k l →
  ∃ l1 l2, l = l1 ++ x :: l2 ∧ cell_at x.2 k ∉ (λ r : Z * gmap string cell, cell_at r.2 k) <$> l2.
Proof.
  induction l as [|r l IH]; cbn [keep_last]; [by intros ?%elem_of_nil|].
  case_bool_decide as Hin.
  - intros Hx. destruct (IH Hx) as (l1 & l2 & -> & Hl2).
    by exists (r :: l1), l2.
  - intros [-> | Hx]%elem_of_cons.
    + by exists [], l.
    + destruct (IH Hx) as (l1 & l2 & -> & Hl2). by exists (r :: l1), l2.
Qed.



(** *** The order of the sort and the row kept when the date is there *)

Lemma ascii_compare_refl c : Ascii.compare c c = Eq.
Proof. unfold Ascii.compare. apply N.compare_refl. Qed.

Lemma string_leb_refl s : String.leb s s = true.
Proof.
  unfold String.leb.
  assert (H : String.compare s s = Eq); [|by rewrite H].
  induction s as [|c s IH]; [done|]. cbn [String.compare].
  by rewrite ascii_compare_refl.
Qed.

Lemma string_leb_trans s1 : ∀ s2 s3,
  String.leb s1 s2 = true → String.leb s2 s3 = true → String.leb s1 s3 = true.
Proof.
  unfold String.leb.
  induction s1 as [|c1 s1 IH]; intros [|c2 s2] [|c3 s3]; cbn [String.compare];
    try done.
  unfold Ascii.compare.
  destruct (N.compare_spec (N_of_ascii c1) (N_of_ascii c2)) as [E12 | L12 | G12];
    [| |done];
    (destruct (N.compare_spec (N_of_ascii c2) (N_of_ascii c3)) as [E23 | L23 | G23];
     [| |done]).
  - rewrite E12, E23, N.compare_refl. apply IH.
  - intros _ _. rewrite E12. by rewrite (proj2 (N.compare_lt_iff _ _) L23).
  - intros _ _. rewrite <- E23. by rewrite (proj2 (N.compare_lt_iff _ _) L12).
  - intros _ _. by rewrite (proj2 (N.compare_lt_iff _ _) (N.lt_trans _ _ _ L12 L23)).
Qed.

Lemma cell_le_datetime_total a b :
  is_datetime a → is_datetime b → cell_le a b = true ∨ cell_le b a = true.
Proof.
  destruct a, b; cbn; try done; auto.
  intros _ _. rewrite !Z.leb_le. lia.
Qed.

Lemma cell_le_datetime_trans a b c :
  is_datetime a → is_datetime b → is_datetime c →
  cell_le a b = true → cell_le b c = true → cell_le a c = true.
Proof.
  destruct a, b, c; cbn; try done.
  intros _ _ _. rewrite !Z.leb_le. lia.
Qed.

Lemma rows_le_total d a b :
  sortable d a → sortable d b →
  rows_le "_dedupe_key" d a b = true ∨ rows_le "_dedupe_key" d b a = true.
Proof.
  intros [[ka Ha] Hda] [[kb Hb] Hdb]. unfold rows_le. rewrite Ha, Hb.
  destruct (decide (Str ka = Str kb)) as [Heq | Hne].
  - rewrite decide_True by done. by apply cell_le_datetime_total.
  - rewrite decide_False by congruence. cbn [cell_le]. apply String.leb_total.
Qed.

Lemma rows_le_trans d a b c :
  sortable d a → sortable d b → sortable d c →
  rows_le "_dedupe_key" d a b = true → rows_le "_dedupe_key" d b c = true →
  rows_le "_dedupe_key" d a c = true.
Proof.
  intros [[ka Ha] Hda] [[kb Hb] Hdb] [[kc Hc] Hdc]. unfold rows_le.
  rewrite Ha, Hb, Hc.
  destruct (decide (Str ka = Str kb)) as [Hab | Hab];
    destruct (decide (Str kb = Str kc)) as [Hbc | Hbc]; cbn [cell_le].
  - rewrite decide_True by congruence. by apply cell_le_datetime_trans.
  - rewrite decide_False by congruence. cbn [cell_le].
    injection Hab as ->. done.
  - rewrite decide_False by congruence. cbn [cell_le].
    injection Hbc as ->. done.
  - intros H1 H2. destruct (decide (Str ka = Str kc)) as [Hac | Hac].
    + injection Hac as ->. destruct Hab. f_equal. by apply String.leb_antisym.
    + cbn [cell_le]. by apply (string_leb_trans ka kb kc).
Qed.

Lemma insert_sorted_Forall {A} (le : A → A → bool) (Q : A → Prop) x l :
  Q x → Forall Q l → Forall Q (insert_sorted le x l).
Proof. intros Hx Hl. by rewrite insert_sorted_perm, Forall_cons. Qed.

Lemma insert_sorted_sorted {A} (le : A → A → bool) (P : A → Prop) x l :
  (∀ a b, P a → P b → le a b = true ∨ le b a = true) →
  (∀ a b c, P a → P b → P c → le a b = true → le b c = true → le a c = true) →
  P x → Forall P l →
  StronglySorted (λ a b, le a b = true) l →
  StronglySorted (λ a b, le a b = true) (insert_sorted le x l).
Proof.
  intros Htot Htrans Hx. induction l as [|y l IH]; intros HP Hs; cbn [insert_sorted].
  - repeat constructor.
  - apply Forall_cons in HP as [Hy HP].
    apply StronglySorted_inv in Hs as [Hs Hall].
    destruct (le x y) eqn:Hxy.
    + constructor; [by constructor|]. constructor; [done|].
      rewrite Forall_forall in Hall, HP. apply Forall_forall. intros z Hz.
      by apply (Htrans x y z); auto.
    + constructor; [by apply IH|].
      apply insert_sorted_Forall; [|done].
      destruct (Htot x y Hx Hy) as [H | H]; [congruence | done].
Qed.

Lemma stable_sort_sorted {A} (le : A → A → bool) (P : A → Prop) l :
  (∀ a b, P a → P b → le a b = true ∨ le b a = true) →
  (∀ a b c, P a → P b → P c → le a b = true → le b c = true → le a c = true) →
  Forall P l →
  StronglySorted (λ a b, le a b = true) (stable_sort le l).
Proof.
  intros Htot Htrans. unfold stable_sort.
  induction l as [|x l IH]; intros HP; cbn [foldr]; [constructor|].
  apply Forall_cons in HP as [Hx HP].
  apply (insert_sorted_sorted le P); auto.
  change (Forall P (stable_sort le l)). by rewrite stable_sort_perm.
Qed.

(** A stable sort keeps the order of two elements that are in order. *)
Lemma insert_sorted_sublist {A} (le : A → A → bool) z l :
  l `sublist_of` insert_sorted le z l.
Proof.
  induction l as [|w l IH]; cbn [insert_sorted]; [apply sublist_nil_l|].
  destruct (le z w); [by apply sublist_cons | by apply sublist_skip].
Qed.

Lemma insert_sorted_before {A} (le : A → A → bool) x y l :
  y ∈ l → le x y = true → [x; y] `sublist_of` insert_sorted le x l.
Proof.
  induction l as [|z l IH]; [by intros ?%elem_of_nil|].
  intros Hy Hle. cbn [insert_sorted]. destruct (le x z) eqn:Hxz.
  - apply sublist_skip. by apply singleton_sublist_l.
  - apply elem_of_cons in Hy as [-> | Hy]; [congruence|].
    apply sublist_cons. by apply IH.
Qed.

Lemma stable_sort_stable {A} (le : A → A → bool) l1 x l2 y :
  y ∈ l2 → le x y = true →
  [x; y] `sublist_of` stable_sort le (l1 ++ x :: l2).
Proof.
  intros Hy Hle. unfold stable_sort. induction l1 as [|z l1 IH]; cbn [app foldr].
  - apply insert_sorted_before; [|done].
    change (y ∈ stable_sort le l2). by rewrite stable_sort_perm.
  - etrans; [exact IH | apply insert_sorted_sublist].
Qed.

Lemma keep_last_sorted_greatest d l x v :
  Forall (sortable d) l →
  x ∈ keep_last "_dedupe_key" (stable_sort (rows_le "_dedupe_key" d) l) →
  v ∈ l → cell_at v.2 "_dedupe_key" = cell_at x.2 "_dedupe_key" →
  cell_le (cell_at v.2 d) (cell_at x.2 d) = true.
Proof.
  intros HP Hx Hv Hkey.
  assert (Hs := stable_sort_sorted (rows_le "_dedupe_key" d) (sortable d) l
                  (rows_le_total d) (rows_le_trans d) HP).
  destruct (keep_last_split _ _ _ Hx) as (l1 & l2 & Hl & Hl2).
  assert (Hsx : sortable d x).
  { rewrite Forall_forall in HP. apply HP.
    rewrite <- (stable_sort_perm (rows_le "_dedupe_key" d)), Hl. set_solver. }
  rewrite <- (stable_sort_perm (rows_le "_dedupe_key" d)), Hl in Hv.
  rewrite Hl in Hs. clear Hl Hx.
  apply elem_of_app in Hv as [Hv | Hv].
  - apply StronglySorted_app in Hs as (Hall & _ & _).
    specialize (Hall v x Hv (list_elem_of_here _ _)).
    unfold rows_le in Hall. by rewrite decide_True in Hall.
  - apply elem_of_cons in Hv as [-> | Hv].
    + destruct Hsx as [_ Hx]. destruct (cell_at x.2 d); cbn in *; try done. lia.
    + destruct Hl2. rewrite <- Hkey.
      by apply (list_elem_of_fmap_2 (λ r : Z * gmap string cell, cell_at r.2 "_dedupe_key")).
Qed.

Lemma sublist_pair_after {A} (x y : A) l1 l2 :
  x ∉ l1 → [x; y] `sublist_of` l1 ++ x :: l2 → y ∈ l2.
Proof.
  induction l1 as [|z l1 IH]; cbn [app]; intros Hx Hsub.
  - apply sublist_cons_r in Hsub as [Hsub | (l' & [= <-] & Hsub)].
    + apply (elem_of_sublist _ _ y) in Hsub; [done | set_solver].
    + by apply singleton_sublist_l.
  - apply not_elem_of_cons in Hx as [Hne Hx].
    apply sublist_cons_r in Hsub as [Hsub | (l' & [= ? ?] & Hsub)]; [by apply IH | done].
Qed.

Lemma keep_last_sorted_last d l1 x l2 v :
  NoDup (l1 ++ x :: l2) →
  x ∈ keep_last "_dedupe_key" (stable_sort (rows_le "_dedupe_key" d) (l1 ++ x :: l2)) →
  v ∈ l2 → cell_at v.2 "_dedupe_key" = cell_at x.2 "_dedupe_key" →
  cell_le (cell_at x.2 d) (cell_at v.2 d) = false.
Proof.
  intros Hnd Hx Hv Hkey.
  destruct (cell_le (cell_at x.2 d) (cell_at v.2 d)) eqn:Hle; [exfalso|done].
  assert (Hrow : rows_le "_dedupe_key" d x v = true).
  { unfold rows_le. by rewrite decide_True. }
  assert (Hsub := stable_sort_stable (rows_le "_dedupe_key" d) l1 x l2 v Hv Hrow).
  rewrite <- (stable_sort_perm (rows_le "_dedupe_key" d)) in Hnd.
  destruct (keep_last_split _ _ _ Hx) as (s1 & s2 & Hs & Hs2).
  rewrite Hs in Hsub, Hnd.
  apply NoDup_app in Hnd as (_ & Hnd & _).
  apply sublist_pair_after in Hsub; [|intros Hin; apply (Hnd x Hin); by left].
  apply Hs2. rewrite <- Hkey.
  by apply (list_elem_of_fmap_2 (λ r : Z * gmap string cell, cell_at r.2 "_dedupe_key")).
Qed.

Lemma cleaned_rows_with_date m d dk req df :
  d ∈ columns (canonical_frame m d df) →
  rows (cleaned (clean_with m d dk req df))
  = without_key <$> keep_last "_dedupe_key"
      (stable_sort (rows_le "_dedupe_key" d)
         (with_key (row_key dk (columns (canonical_frame m d df)))
            <$> rows (valid_frame req (canonical_frame m d df)))).
Proof.
  intros Hd. rewrite cleaned_rows. cbv zeta. unfold dedupe_input.
  rewrite bool_decide_eq_true_2.
  - rewrite add_dedupe_key_rows, valid_frame_columns. reflexivity.
  - rewrite add_dedupe_key_columns, elem_of_add_column, valid_frame_columns.
    right. exact Hd.
Qed.

Lemma date_field_not_key m d df :
  d ∈ columns (canonical_frame m d df) → d ≠ "_dedupe_key".
Proof.
  intros Hd ->. apply canonical_frame_columns in Hd.
  exact (dedupe_key_not_canonical Hd).
Qed.

Lemma cell_at_with_key K ir c :
  cell_at (with_key K ir).2 c
  = if decide (c = "_dedupe_key") then Str (K ir.2) else cell_at ir.2 c.
Proof.
  unfold with_key. cbn [snd]. rewrite cell_at_insert.
  destruct (decide (c = "_dedupe_key")) as [-> | Hne].
  - by rewrite decide_True.
  - by rewrite decide_False.
Qed.

Lemma keyed_rows_sortable m d df K l :
  d ∈ columns (canonical_frame m d df) →
  l ⊆ rows (canonical_frame m d df) →
  Forall (sortable d) (with_key K <$> l).
Proof.
  intros Hd Hl. apply Forall_fmap, Forall_forall. intros ir Hin.
  unfold compose, sortable. rewrite !cell_at_with_key.
  rewrite decide_True by reflexivity.
  rewrite decide_False by exact (date_field_not_key m d df Hd).
  split; [by eexists|].
  destruct (col_has_parse_date infer_datetime timestamp_str d
              (canonicalize m df) Hd ir (Hl ir Hin)) as (c & Hc & Hdt).
  unfold cell_at. rewrite Hc. exact Hdt.
Qed.

(** X9. With the date field among the canonical columns, the row kept
    for a key has the greatest date of the valid rows with that key in
    the order of the sort, where a missing date comes last: the kept
    row has no date, or every valid row of its key has a date and none
    a later one than the kept row. *)
Theorem greatest_date_kept m d dk req df ir v :
  let out := canonical_frame m d df in
  d ∈ columns out →
  ir ∈ rows (cleaned (clean_with m d dk req df)) →
  v ∈ rows out → is_valid req (columns out) v →
  row_key dk (columns out) v.2 = row_key dk (columns out) ir.2 →
  cell_at ir.2 d = NA
  ∨ ∃ t t', cell_at ir.2 d = Ts t ∧ cell_at v.2 d = Ts t' ∧ (t' ≤ t)%Z.
Proof.
  intros out Hd Hir Hv Hvalid Hkey.
  assert (Hne := date_field_not_key m d df Hd).
  rewrite (cleaned_rows_with_date m d dk req df Hd) in Hir. fold out in Hir.
  assert (Hsort : Forall (sortable d)
            (with_key (row_key dk (columns out)) <$> rows (valid_frame req out))).
  { apply (keyed_rows_sortable m d df); [exact Hd|]. apply valid_frame_subseteq. }
  assert (Hlack : ∀ x : Z * gmap string cell,
            x ∈ rows (valid_frame req out) → x.2 !! "_dedupe_key" = None).
  { intros x Hx.
    exact (valid_rows_lack_key infer_datetime timestamp_str m d df req x Hx). }
  assert (Hvin : v ∈ rows (valid_frame req out)).
  { apply valid_in_valid_frame; assumption. }
  clearbody out. clear Hd Hv Hvalid.
  set (valid := rows (valid_frame req out)) in *. clearbody valid.
  apply list_elem_of_fmap in Hir as (x & -> & Hx).
  assert (Hxin : ∃ x0, x = with_key (row_key dk (columns out)) x0 ∧ x0 ∈ valid).
  { apply keep_last_subseteq in Hx. rewrite stable_sort_perm in Hx.
    apply list_elem_of_fmap in Hx. exact Hx. }
  destruct Hxin as (x0 & -> & Hx0).
  rewrite (without_with_key _ x0 (Hlack x0 Hx0)) in Hkey |- *.
  assert (Hle := keep_last_sorted_greatest d _ _
                   (with_key (row_key dk (columns out)) v) Hsort Hx
                   (list_elem_of_fmap_2 _ _ _ Hvin)).
  rewrite !cell_at_with_key in Hle.
  rewrite !decide_True in Hle by reflexivity.
  rewrite !decide_False in Hle by exact Hne.
  specialize (Hle (f_equal Str Hkey)).
  rewrite Forall_fmap, Forall_forall in Hsort.
  destruct (Hsort x0 Hx0) as [_ Hdx]. destruct (Hsort v Hvin) as [_ Hdv].
  unfold compose in Hdx, Hdv. rewrite cell_at_with_key in Hdx, Hdv.
  rewrite decide_False in Hdx, Hdv by exact Hne.
  clear Hsort Hx Hlack.
  destruct (cell_at x0.2 d) as [| | |t]; cbn in Hdx; try done; [by left|].
  destruct (cell_at v.2 d) as [| | |t']; cbn in Hdv, Hle; try done.
  right. exists t, t'. repeat split. by apply Z.leb_le.
Qed.

(** X10. With the date field among the canonical columns and the row
    labels distinct, a valid row that comes after the kept row of its
    key has an earlier date: among the rows with the greatest date the
    last one is kept. *)
Theorem later_rows_have_earlier_dates m d dk req df before ir after v :
  let out := canonical_frame m d df in
  NoDup (rows df).*1 →
  d ∈ columns out →
  filter (is_valid req (columns out)) (rows out) = before ++ ir :: after →
  ir ∈ rows (cleaned (clean_with m d dk req df)) →
  v ∈ after →
  row_key dk (columns out) v.2 = row_key dk (columns out) ir.2 →
  ∃ t', cell_at v.2 d = Ts t'
        ∧ (cell_at ir.2 d = NA ∨ ∃ t, cell_at ir.2 d = Ts t ∧ (t' < t)%Z).
Proof.
  intros out Hnd Hd Hsplit Hir Hv Hkey.
  assert (Hne := date_field_not_key m d df Hd).
  assert (Hout : NoDup (rows out).*1).
  { unfold out. rewrite canonical_frame_labels. exact Hnd. }
  rewrite (cleaned_rows_with_date m d dk req df Hd) in Hir. fold out in Hir.
  rewrite (valid_frame_rows req out Hout) in Hir.
  assert (Hsort : Forall (sortable d)
            (with_key (row_key dk (columns out))
               <$> filter (is_valid req (columns out)) (rows out))).
  { apply (keyed_rows_sortable m d df); [exact Hd|].
    intros x Hx. apply list_elem_of_filter in Hx. exact (proj2 Hx). }
  assert (Hlack : ∀ x : Z * gmap string cell,
            x ∈ filter (is_valid req (columns out)) (rows out) → x.2 !! "_dedupe_key" = None).
  { intros x Hx. apply (valid_rows_lack_key infer_datetime timestamp_str m d df req).
    rewrite valid_frame_rows by exact Hout. exact Hx. }
  assert (Hlabels : NoDup (filter (is_valid req (columns out)) (rows out)).*1).
  { apply (sublist_NoDup _ (rows out).*1).
    - unfold out. rewrite canonical_frame_labels. exact Hnd.
    - apply fmap_sublist, sublist_filter. }
  clearbody out. clear Hd Hnd Hout.
  rewrite Hsplit in Hir, Hsort, Hlack, Hlabels. clear Hsplit.
  set (K := with_key (row_key dk (columns out))) in *.
  assert (HndK : NoDup (K <$> before ++ ir :: after)).
  { apply (NoDup_fmap_1 fst). rewrite <- list_fmap_compose.
    exact Hlabels. }
  assert (Hir0 : ir.2 !! "_dedupe_key" = None).
  { apply Hlack. rewrite elem_of_app, elem_of_cons. auto. }
  assert (Hkeep : K ir ∈ keep_last "_dedupe_key"
                    (stable_sort (rows_le "_dedupe_key" d) (K <$> before ++ ir :: after))).
  { apply list_elem_of_fmap in Hir as (x & Heq & Hx).
    assert (Hx' := Hx). apply keep_last_subseteq in Hx'.
    rewrite stable_sort_perm in Hx'.
    apply list_elem_of_fmap in Hx' as (x0 & -> & Hx0).
    unfold K in Heq. rewrite (without_with_key _ x0 (Hlack x0 Hx0)) in Heq.
    by subst x0. }
  rewrite fmap_app, fmap_cons in HndK, Hkeep.
  assert (Hle := keep_last_sorted_last d _ _ _ (K v) HndK Hkeep
                   (list_elem_of_fmap_2 _ _ _ Hv)).
  unfold K in Hle. rewrite !cell_at_with_key in Hle.
  rewrite !decide_True in Hle by reflexivity.
  rewrite !decide_False in Hle by exact Hne.
  specialize (Hle (f_equal Str Hkey)).
  rewrite Forall_fmap, Forall_forall in Hsort.
  assert (Hdx : is_datetime (cell_at ir.2 d)).
  { destruct (Hsort ir) as [_ H]; [rewrite elem_of_app, elem_of_cons; auto|].
    unfold compose, K in H. rewrite cell_at_with_key, decide_False in H by exact Hne.
    exact H. }
  assert (Hdv : is_datetime (cell_at v.2 d)).
  { destruct (Hsort v) as [_ H]; [rewrite elem_of_app, elem_of_cons; auto|].
    unfold compose, K in H. rewrite cell_at_with_key, decide_False in H by exact Hne.
    exact H. }
  clear Hsort Hkeep HndK Hlack Hlabels Hir.
  destruct (cell_at v.2 d) as [| | |t']; cbn in Hdv; try done.
  { by destruct (cell_at ir.2 d). }
  exists t'. split; [done|].
  destruct (cell_at ir.2 d) as [| | |t]; cbn in Hdx, Hle; try done; [by left|].
  right. exists t. split; [done|]. apply Z.leb_gt in Hle. lia.
Qed.

(** *** The columns under the auto-mapping, and their order *)

Lemma auto_mapping_mapped cols c :
  is_Some (_build_auto_mapping cols !! c)
  ↔ c ∈ canonical_cols
    ∧ ∃ src, _build_auto_mapping cols !! c = Some src ∧ src ≠ "" ∧ src ∈ cols.
Proof.
  split.
  - intros [h Hh].
    destruct (auto_mapping_lookup_inv cols c h Hh) as (al & a & Hin & _ & Hc & Hne & _).
    split.
    + apply canonical_cols_names, list_elem_of_fmap. by exists (c, al).
    + by exists h.
  - intros (_ & src & -> & _). by eexists.
Qed.

(** X15. When the configuration has no mapping, the columns of the
    cleaned table are the canonical fields of which some alias has the
    normal form of a header, and [full_name] besides when [first_name]
    and [last_name] are among them. *)
Theorem auto_mapped_columns df cfg c :
  mapping cfg = None →
  let m := _build_auto_mapping (columns df) in
  c ∈ columns (cleaned (clean_contacts_csv df cfg).1)
  ↔ is_Some (m !! c)
    ∨ (c = "full_name" ∧ is_Some (m !! "first_name") ∧ is_Some (m !! "last_name")).
Proof.
  intros Hm m. rewrite clean_contacts_csv_result, Hm. cbn [default]. fold m.
  rewrite cleaned_columns_mapped. unfold m.
  rewrite !auto_mapping_mapped. reflexivity.
Qed.

Lemma NoDup_add_column c cols : NoDup cols → NoDup (add_column c cols).
Proof.
  intros Hnd. unfold add_column. case_bool_decide as Hc; [done|].
  apply NoDup_app. split; [done|]. split; [|apply NoDup_singleton].
  intros x Hx ->%list_elem_of_singleton. done.
Qed.

Lemma NoDup_project_columns m df cs : ∀ acc,
  NoDup acc → NoDup (project_columns m df cs acc).
Proof.
  induction cs as [|c cs IH]; intros acc Hacc; [done|].
  cbn [project_columns foldl]. apply IH.
  destruct (picked m df c); [by apply NoDup_add_column | done].
Qed.

Lemma canonical_frame_columns_NoDup m d df : NoDup (columns (canonical_frame m d df)).
Proof.
  unfold canonical_frame, canonicalize.
  rewrite parse_date_columns, normalize_email_columns, normalize_full_name_columns.
  rewrite build_full_name_columns.
  assert (Hp : NoDup (columns (project m df))).
  { rewrite project_cols. apply NoDup_project_columns, NoDup_nil_2. }
  case_bool_decide as Hf; cbn [andb]; [|done].
  destruct (_ && _); [|done].
  apply NoDup_app. split; [done|]. split; [|apply NoDup_singleton].
  intros x Hx ->%list_elem_of_singleton. done.
Qed.

Lemma cleaned_columns_eq m d dk req df :
  columns (cleaned (clean_with m d dk req df))
  = filter (λ c, c ∈ columns (canonical_frame m d df)) preferred_order
    ++ filter (λ c, c ∉ preferred_order) (columns (canonical_frame m d df)).
Proof.
  rewrite cleaned_eq. unfold order_columns, reorder, drop_column. cbn [columns].
  rewrite dedupe_columns, add_dedupe_key_columns, valid_frame_columns.
  assert (Hkey : "_dedupe_key" ∉ columns (canonical_frame m d df)).
  { intros H. apply canonical_frame_columns in H. exact (dedupe_key_not_canonical H). }
  generalize dependent (columns (canonical_frame m d df)). intros cols Hkey.
  assert (Hcols : filter (λ c', c' ≠ "_dedupe_key") (add_column "_dedupe_key" cols) = cols).
  { unfold add_column. rewrite bool_decide_eq_false_2 by done.
    rewrite filter_app, filter_cons, decide_False, filter_nil, app_nil_r by (by intros H; apply H).
    apply filter_all. intros x Hx ->. done. }
  by rewrite Hcols.
Qed.

Lemma canonical_names_order :
  Forall (λ c, c ∈ preferred_order ∨ c = "first_name" ∨ c = "last_name") COMMON_ALIASES.*1.
Proof. apply (bool_decide_unpack _). by vm_compute. Qed.

(** X18. The order of the columns of the cleaned table: first the
    fields of the preferred order that are present, in that order, and
    after them at most [first_name] and [last_name]; no column comes
    twice. *)
Theorem cleaned_column_order m d dk req df :
  let cols := columns (cleaned (clean_with m d dk req df)) in
  ∃ others,
    cols = filter (λ c, c ∈ cols) preferred_order ++ others
    ∧ (∀ c, c ∈ others → c = "first_name" ∨ c = "last_name")
    ∧ NoDup cols.
Proof.
  intros cols.
  exists (filter (λ c, c ∉ preferred_order) (columns (canonical_frame m d df))).
  assert (Heq := cleaned_columns_eq m d dk req df). fold cols in Heq.
  assert (Hiff : ∀ c, c ∈ cols ↔ c ∈ columns (canonical_frame m d df)).
  { intros c. apply cleaned_columns. }
  assert (Hcan : ∀ c, c ∈ columns (canonical_frame m d df) → c ∈ canonical_cols).
  { intros c. apply canonical_frame_columns. }
  assert (Hnd := canonical_frame_columns_NoDup m d df).
  clearbody cols. generalize dependent (columns (canonical_frame m d df)).
  intros out Heq Hiff Hcan Hnd.
  split; [|split].
  - rewrite Heq at 1. f_equal. apply list_filter_iff. intros c. by rewrite Hiff.
  - intros c [Hc Hin]%list_elem_of_filter. apply Hcan in Hin.
    apply canonical_cols_names in Hin.
    pose proof canonical_names_order as Hall. rewrite Forall_forall in Hall.
    destruct (Hall c Hin) as [Hp | Hother]; [done | exact Hother].
  - rewrite Heq. apply NoDup_app. split; [|split].
    + apply NoDup_filter. unfold preferred_order. apply (bool_decide_unpack _). by vm_compute.
    + intros c [_ Hp]%list_elem_of_filter [Hnp _]%list_elem_of_filter. done.
    + by apply NoDup_filter.
Qed.

(** *** The command line and the pipeline *)

(** X19. When every piece of the option [--required] is blank, [main]
    asks for no field and no row is rejected: the report holds entries
    of the deduplication only. *)
Theorem blank_required_rejects_nothing load_mapping args df :
  (∀ piece, piece ∈ split_on "," (arg_required args) → strip piece = EmptyString) →
  let cfg := main_config load_mapping args in
  required cfg = []
  ∧ ∀ e, e ∈ report (clean_contacts_csv df cfg).1 → row e = NoRow.
Proof.
  intros Hblank cfg.
  assert (Hreq : required cfg = []).
  { unfold cfg, main_config. cbn [required]. unfold parse_required.
    rewrite filter_none; [done|]. intros x Hx Hne. by apply Hne, Hblank. }
  split; [exact Hreq|].
  intros e. rewrite clean_contacts_csv_result, Hreq, report_eq.
  rewrite filter_none.
  - rewrite fmap_nil, app_nil_l. apply dedupe_entries_no_row.
  - intros ir _ Hinv. apply Hinv. reflexivity.
Qed.

(** *** The order of the rows when the date is there *)

Lemma StronglySorted_sublist {A} (R : relation A) l l' :
  l' `sublist_of` l → StronglySorted R l → StronglySorted R l'.
Proof.
  induction 1 as [|x l1 l2 Hsub IH|x l1 l2 Hsub IH]; intros Hs; [done| |].
  - apply StronglySorted_inv in Hs as [Hs Hall]. constructor; [by apply IH|].
    rewrite Forall_forall in Hall |- *. intros y Hy. apply Hall.
    by apply (elem_of_sublist l1).
  - apply StronglySorted_inv in Hs as [Hs _]. by apply IH.
Qed.

Lemma StronglySorted_strengthen {A B} (R : relation A) (g : A → B) (P : A → Prop) l :
  StronglySorted R l → NoDup (g <$> l) → Forall P l →
  StronglySorted (λ a b, R a b ∧ g a ≠ g b ∧ P a ∧ P b) l.
Proof.
  induction l as [|x l IH]; intros Hs Hnd HP; [constructor|].
  apply StronglySorted_inv in Hs as [Hs Hall].
  rewrite fmap_cons in Hnd. apply NoDup_cons in Hnd as [Hx Hnd].
  apply Forall_cons in HP as [HPx HP].
  constructor; [by apply IH|].
  rewrite Forall_forall in Hall, HP. apply Forall_forall. intros y Hy.
  repeat split; auto.
  intros Heq. apply Hx. rewrite Heq. by apply list_elem_of_fmap_2.
Qed.

Lemma string_leb_ltb a b : String.leb a b = true → a ≠ b → String.ltb a b = true.
Proof.
  unfold String.leb, String.ltb. destruct (String.compare a b) eqn:Hc; try done.
  intros _ Hne. destruct Hne. by apply String.compare_eq_iff.
Qed.

(** X20. For a date field other than [full_name] and [email] (so that
    the key column holds text): with the date field among the canonical
    columns the rows of the cleaned table come in the order of the
    sort, not of the input: their dedupe keys ascend strictly in the
    order of [str].  (When the date field names the key column, the
    keys of the rows without a date are missing and sort last.) *)
Theorem cleaned_sorted_by_key_with_date m d dk req df :
  let out := canonical_frame m d df in
  d ≠ "full_name" → d ≠ "email" →
  d ∈ columns out →
  StronglySorted (λ a b, String.ltb a b = true)
    ((λ ir : Z * gmap string cell, row_key dk (columns out) ir.2)
       <$> rows (cleaned (clean_with m d dk req df))).
Proof.
  intros out _ _ Hd.
  rewrite (cleaned_rows_with_date m d dk req df Hd). fold out.
  assert (Hsort : Forall (sortable d)
            (with_key (row_key dk (columns out)) <$> rows (valid_frame req out))).
  { apply (keyed_rows_sortable m d df); [exact Hd|]. apply valid_frame_subseteq. }
  assert (Hlack : ∀ x : Z * gmap string cell,
            x ∈ rows (valid_frame req out) → x.2 !! "_dedupe_key" = None).
  { intros x Hx.
    exact (valid_rows_lack_key infer_datetime timestamp_str m d df req x Hx). }
  clearbody out. clear Hd.
  set (K := row_key dk (columns out)) in *.
  set (valid := rows (valid_frame req out)) in *.
  clearbody K valid.
  set (sorted := stable_sort (rows_le "_dedupe_key" d) (with_key K <$> valid)).
  assert (Hs : StronglySorted (λ a b, rows_le "_dedupe_key" d a b = true) sorted).
  { exact (stable_sort_sorted (rows_le "_dedupe_key" d) (sortable d) _
             (rows_le_total d) (rows_le_trans d) Hsort). }
  assert (Hin : ∀ x, x ∈ sorted → ∃ v, v ∈ valid ∧ x = with_key K v).
  { intros x Hx. unfold sorted in Hx. rewrite stable_sort_perm in Hx.
    apply list_elem_of_fmap in Hx as (v & -> & Hv). by exists v. }
  clearbody sorted. clear Hsort.
  rewrite <- list_fmap_compose.
  set (f := (λ ir : Z * gmap string cell, K ir.2) ∘ without_key).
  assert (HP : Forall (λ x : Z * gmap string cell, cell_at x.2 "_dedupe_key" = Str (f x))
                 (keep_last "_dedupe_key" sorted)).
  { apply Forall_forall. intros x Hx. apply keep_last_subseteq in Hx.
    destruct (Hin x Hx) as (v & Hv & ->). unfold f, compose.
    rewrite (without_with_key K v (Hlack v Hv)).
    rewrite cell_at_with_key. by rewrite decide_True. }
  apply (StronglySorted_sublist _ _ _ (keep_last_sublist "_dedupe_key" sorted)) in Hs.
  apply (StronglySorted_strengthen _
           (λ r : Z * gmap string cell, cell_at r.2 "_dedupe_key") _ _ Hs
           (keep_last_NoDup "_dedupe_key" sorted)) in HP.
  eapply StronglySorted_fmap; [|exact HP].
  intros x y (Hle & Hne & Hx & Hy). cbv beta in *.
  unfold rows_le in Hle. rewrite decide_False in Hle by done.
  rewrite Hx, Hy in Hle, Hne. cbn [cell_le] in Hle.
  apply string_leb_ltb; [done | congruence].
Qed.

End Coverage.

(** ** The pipeline on concrete tables *)

(** C1. On two rows with one key, one with the date 2022-05-01 and
    one without a date, the pipeline retains the row without a date,
    in either order of the input: [sort_values] puts a missing date
    last and [keep="last"] takes it. *)
Theorem missing_date_retained :
  table (cleaned (run_iso dated_then_undated default_config).1)
  = [(1%Z, [Str "A. Lee"; Str "x@y.com"; NA])]
  ∧ table (cleaned (run_iso undated_then_dated default_config).1)
    = [(0%Z, [Str "A. Lee"; Str "x@y.com"; NA])].
Proof. split; vm_compute; reflexivity. Qed.

(** C3. Without a date column a duplicate is removed and the report
    stays empty; with a date column the same duplicate is reported. *)
Theorem duplicates_unreported_without_date :
  table (cleaned (run_iso duplicates_without_date default_config).1)
  = [(1%Z, [Str "A. Lee"; Str "x@y.com"])]
  ∧ report (run_iso duplicates_without_date default_config).1 = []
  ∧ report (run_iso duplicates_with_date default_config).1
    = [Entry NoRow "deduped_removed_duplicates:key=x@y.com"].
Proof. repeat split; vm_compute; reflexivity. Qed.


(** C9, as stated, fails: a configuration with [dedupe_key = "phone"]
    is constructed, and the pipeline runs on it. *)
Lemma config_accepts_other_dedupe_key :
  ("phone" ∉ dedupe_key_choices)
  ∧ CleanConfig_init "last_clean_date" "phone" ["full_name"] None
    = Some (Config "last_clean_date" "phone" ["full_name"] None)
  ∧ table (cleaned (run_iso names_only
                      (Config "last_clean_date" "phone" ["full_name"] None)).1)
    = [(0%Z, [Str "Ann Lee"]); (1%Z, [Str "Bob Ray"])].
Proof.
  split; [apply (bool_decide_unpack _); by vm_compute|].
  split; [reflexivity|]. vm_compute. reflexivity.
Qed.

Lemma dedupe_key_unchecked_witness :
  ("phone" ∉ dedupe_key_choices)
  ∧ (parse_dedupe_key (Some "phone") = None
     ∧ (∀ d req m, CleanConfig_init d "phone" req m = Some (Config d "phone" req m))
     ∧ (∀ d req m df,
          (clean_contacts_csv IsoDates.infer IsoDates.to_str df (Config d "phone" req m)).1
          = (clean_contacts_csv IsoDates.infer IsoDates.to_str df
               (Config d "full_name" req m)).1)).
Proof.
  assert (H : "phone" ∉ dedupe_key_choices).
  { apply (bool_decide_unpack _). by vm_compute. }
  split; [exact H|].
  exact (dedupe_key_unchecked IsoDates.infer IsoDates.to_str "phone" H).
Defined.

Lemma config_keeps_first_mapping_witness :
  mapping default_config = None
  ∧ let '(r1, cfg1) := clean_contacts_csv IsoDates.infer IsoDates.to_str
                         names_only default_config in
    let '(r2, cfg2) := clean_contacts_csv IsoDates.infer IsoDates.to_str
                         other_headers cfg1 in
    mapping cfg1 = Some (_build_auto_mapping (columns names_only))
    ∧ date_field cfg1 = date_field default_config
    ∧ dedupe_key cfg1 = dedupe_key default_config
    ∧ required cfg1 = required default_config
    ∧ cfg2 = cfg1
    ∧ r1 = clean_with IsoDates.infer IsoDates.to_str
             (_build_auto_mapping (columns names_only))
             (date_field default_config) (dedupe_key default_config)
             (required default_config) names_only
    ∧ r2 = clean_with IsoDates.infer IsoDates.to_str
             (_build_auto_mapping (columns names_only))
             (date_field default_config) (dedupe_key default_config)
             (required default_config) other_headers.
Proof.
  split; [reflexivity|].
  exact (config_keeps_first_mapping IsoDates.infer IsoDates.to_str
           names_only other_headers default_config eq_refl).
Defined.

(** The second table alone is cleaned to one row; after a call on the
    first table with the same configuration object its only row is
    rejected, the first table's header being looked for in it. *)
Example shared_config_second_call :
  let fresh := (run_iso other_headers default_config).1 in
  let cfg1 := (run_iso names_only default_config).2 in
  let shared := (run_iso other_headers cfg1).1 in
  table (cleaned fresh) = [(0%Z, [Str "Cy Poe"])]
  ∧ report fresh = []
  ∧ table (cleaned shared) = []
  ∧ report shared = [Entry (Ordinal 0) "missing_required:full_name"].
Proof. repeat split; vm_compute; reflexivity. Qed.

(** The scenario of C7: ["Ann"] and ["Lee"] give ["Ann Lee"]. *)
Example full_name_synthesized :
  columns (cleaned (run_iso first_and_last default_config).1)
  = ["full_name"; "first_name"; "last_name"]
  ∧ table (cleaned (run_iso first_and_last default_config).1)
    = [(0%Z, [Str "Ann Lee"; Str "Ann"; Str "Lee"]);
       (1%Z, [Str "Mary Jo"; Str " Mary  Jo "; NA])].
Proof. split; vm_compute; reflexivity. Qed.




(** ** The further properties on concrete tables *)

Lemma duplicates_reported_with_date_witness :
  let m := _build_auto_mapping (columns duplicates_with_date) in
  let out := canonical_frame IsoDates.infer IsoDates.to_str m "last_clean_date"
               duplicates_with_date in
  let keys := (λ ir : Z * gmap string cell, row_key IsoDates.to_str "email" (columns out) ir.2)
                <$> filter (is_valid ["full_name"] (columns out)) (rows out) in
  NoDup (rows duplicates_with_date).*1
  ∧ "last_clean_date" ≠ "full_name" ∧ "last_clean_date" ≠ "email"
  ∧ "last_clean_date" ∈ columns out
  ∧ ∃ reported : list string,
      filter (λ e, row e = NoRow)
        (report (clean_with IsoDates.infer IsoDates.to_str m "last_clean_date" "email"
                   ["full_name"] duplicates_with_date))
      = (λ k, Entry NoRow ("deduped_removed_duplicates:key=" +:+ k)) <$> reported
      ∧ NoDup reported
      ∧ ∀ k, k ∈ reported ↔ 1 < length (filter (λ k', k' = k) keys).
Proof.
  intros m out keys.
  assert (H0 : NoDup (rows duplicates_with_date).*1).
  { apply (bool_decide_unpack _). by vm_compute. }
  assert (H1 : "last_clean_date" ≠ "full_name") by discriminate.
  assert (H2 : "last_clean_date" ≠ "email") by discriminate.
  assert (Hd : "last_clean_date" ∈ columns out).
  { apply (bool_decide_unpack _). by vm_compute. }
  split; [exact H0|]. split; [exact H1|]. split; [exact H2|]. split; [exact Hd|].
  exact (duplicates_reported_with_date IsoDates.infer IsoDates.to_str m "last_clean_date"
           "email" ["full_name"] duplicates_with_date H0 H1 H2 Hd).
Defined.


Lemma empty_table_empty_result_witness :
  rows no_rows = []
  ∧ rows (cleaned (clean_with IsoDates.infer IsoDates.to_str
                     (_build_auto_mapping (columns no_rows)) "last_clean_date" "email"
                     ["full_name"] no_rows)) = []
  ∧ report (clean_with IsoDates.infer IsoDates.to_str
              (_build_auto_mapping (columns no_rows)) "last_clean_date" "email"
              ["full_name"] no_rows) = [].
Proof.
  split; [reflexivity|].
  exact (empty_table_empty_result IsoDates.infer IsoDates.to_str
           (_build_auto_mapping (columns no_rows)) "last_clean_date" "email"
           ["full_name"] no_rows eq_refl).
Defined.

Lemma other_columns_copied_witness :
  let m := _build_auto_mapping (columns with_phone) in
  "phone" ∈ canonical_cols
  ∧ m !! "phone" = Some "Phone"
  ∧ "Phone" ≠ ""
  ∧ "Phone" ∈ columns with_phone
  ∧ "phone" ≠ "full_name" ∧ "phone" ≠ "email" ∧ "phone" ≠ "last_clean_date"
  ∧ get_column "phone"
      (canonical_frame IsoDates.infer IsoDates.to_str m "last_clean_date" with_phone)
    = get_column "Phone" with_phone.
Proof.
  intros m.
  assert (H1 : "phone" ∈ canonical_cols).
  { apply (bool_decide_unpack _). by vm_compute. }
  assert (H2 : m !! "phone" = Some "Phone").
  { vm_compute. reflexivity. }
  assert (H3 : "Phone" ≠ "") by discriminate.
  assert (H4 : "Phone" ∈ columns with_phone).
  { apply (bool_decide_unpack _). by vm_compute. }
  assert (H5 : "phone" ≠ "full_name") by discriminate.
  assert (H6 : "phone" ≠ "email") by discriminate.
  assert (H7 : "phone" ≠ "last_clean_date") by discriminate.
  repeat (split; [assumption|]).
  exact (other_columns_copied IsoDates.infer IsoDates.to_str m "last_clean_date"
           with_phone "phone" "Phone" H1 H2 H3 H4 H5 H6 H7).
Defined.

Lemma date_column_parsed_witness :
  let m := _build_auto_mapping (columns duplicates_with_date) in
  let res := clean_with IsoDates.infer IsoDates.to_str m "last_clean_date" "email"
               ["full_name"] duplicates_with_date in
  let ir := default (0%Z, ∅) (head (rows (cleaned res))) in
  "last_clean_date" ∈ columns (cleaned res)
  ∧ ir ∈ rows (cleaned res)
  ∧ ∃ v, ir.2 !! "last_clean_date" = Some v ∧ (v = NA ∨ ∃ t, v = Ts t).
Proof.
  intros m res ir.
  assert (H1 : "last_clean_date" ∈ columns (cleaned res)).
  { apply (bool_decide_unpack _). by vm_compute. }
  assert (H2 : ir ∈ rows (cleaned res)).
  { apply (bool_decide_unpack _). by vm_compute. }
  split; [exact H1|]. split; [exact H2|].
  exact (date_column_parsed IsoDates.infer IsoDates.to_str m "last_clean_date" "email"
           ["full_name"] duplicates_with_date ir H1 H2).
Defined.


Lemma greatest_date_kept_witness :
  let m := _build_auto_mapping (columns dated_then_undated) in
  let out := canonical_frame IsoDates.infer IsoDates.to_str m "last_clean_date"
               dated_then_undated in
  let res := clean_with IsoDates.infer IsoDates.to_str m "last_clean_date" "email"
               ["full_name"] dated_then_undated in
  let ir := default (0%Z, ∅) (head (rows (cleaned res))) in
  let v := default (0%Z, ∅) (head (rows out)) in
  "last_clean_date" ∈ columns out
  ∧ ir ∈ rows (cleaned res)
  ∧ v ∈ rows out
  ∧ is_valid ["full_name"] (columns out) v
  ∧ row_key IsoDates.to_str "email" (columns out) v.2
    = row_key IsoDates.to_str "email" (columns out) ir.2
  ∧ (cell_at ir.2 "last_clean_date" = NA
     ∨ ∃ t t', cell_at ir.2 "last_clean_date" = Ts t
               ∧ cell_at v.2 "last_clean_date" = Ts t' ∧ (t' ≤ t)%Z).
Proof.
  intros m out res ir v.
  assert (H1 : "last_clean_date" ∈ columns out).
  { apply (bool_decide_unpack _). by vm_compute. }
  assert (H2 : ir ∈ rows (cleaned res)).
  { apply (bool_decide_unpack _). by vm_compute. }
  assert (H3 : v ∈ rows out).
  { apply (bool_decide_unpack _). by vm_compute. }
  assert (H4 : is_valid ["full_name"] (columns out) v).
  { apply (bool_decide_unpack _). by vm_compute. }
  assert (H5 : row_key IsoDates.to_str "email" (columns out) v.2
               = row_key IsoDates.to_str "email" (columns out) ir.2).
  { vm_compute. reflexivity. }
  repeat (split; [assumption|]).
  exact (greatest_date_kept IsoDates.infer IsoDates.to_str m "last_clean_date" "email"
           ["full_name"] dated_then_undated ir v H1 H2 H3 H4 H5).
Defined.

Lemma later_rows_have_earlier_dates_witness :
  let m := _build_auto_mapping (columns duplicates_with_date) in
  let out := canonical_frame IsoDates.infer IsoDates.to_str m "last_clean_date"
               duplicates_with_date in
  let res := clean_with IsoDates.infer IsoDates.to_str m "last_clean_date" "email"
               ["full_name"] duplicates_with_date in
  let ir := default (0%Z, ∅) (rows out !! 0%nat) in
  let v := default (0%Z, ∅) (rows out !! 1%nat) in
  NoDup (rows duplicates_with_date).*1
  ∧ "last_clean_date" ∈ columns out
  ∧ filter (is_valid ["full_name"] (columns out)) (rows out) = [] ++ ir :: [v]
  ∧ ir ∈ rows (cleaned res)
  ∧ v ∈ [v]
  ∧ row_key IsoDates.to_str "email" (columns out) v.2
    = row_key IsoDates.to_str "email" (columns out) ir.2
  ∧ ∃ t', cell_at v.2 "last_clean_date" = Ts t'
          ∧ (cell_at ir.2 "last_clean_date" = NA
             ∨ ∃ t, cell_at ir.2 "last_clean_date" = Ts t ∧ (t' < t)%Z).
Proof.
  intros m out res ir v.
  assert (H1 : NoDup (rows duplicates_with_date).*1).
  { apply (bool_decide_unpack _). by vm_compute. }
  assert (H2 : "last_clean_date" ∈ columns out).
  { apply (bool_decide_unpack _). by vm_compute. }
  assert (H3 : filter (is_valid ["full_name"] (columns out)) (rows out) = [] ++ ir :: [v]).
  { apply (bool_decide_unpack _). by vm_compute. }
  assert (H4 : ir ∈ rows (cleaned res)).
  { apply (bool_decide_unpack _). by vm_compute. }
  assert (H5 : v ∈ [v]) by apply list_elem_of_here.
  assert (H6 : row_key IsoDates.to_str "email" (columns out) v.2
               = row_key IsoDates.to_str "email" (columns out) ir.2).
  { vm_compute. reflexivity. }
  repeat (split; [assumption|]).
  exact (later_rows_have_earlier_dates IsoDates.infer IsoDates.to_str m "last_clean_date"
           "email" ["full_name"] duplicates_with_date [] ir [v] v H1 H2 H3 H4 H5 H6).
Defined.

Lemma auto_mapping_sound_witness :
  _build_auto_mapping ["Name"; "E-Mail"] !! "email" = Some "E-Mail"
  ∧ ∃ aliases a,
      ("email", aliases) ∈ COMMON_ALIASES ∧ a ∈ aliases
      ∧ "E-Mail" ∈ ["Name"; "E-Mail"] ∧ "E-Mail" ≠ EmptyString
      ∧ _normalize_header "E-Mail" = _normalize_header a.
Proof.
  assert (H : _build_auto_mapping ["Name"; "E-Mail"] !! "email" = Some "E-Mail").
  { vm_compute. reflexivity. }
  split; [exact H|].
  exact (auto_mapping_sound ["Name"; "E-Mail"] "email" "E-Mail" H).
Defined.

Lemma auto_mapped_columns_witness :
  let m := _build_auto_mapping (columns first_and_last) in
  mapping default_config = None
  ∧ ("full_name" ∈ columns (cleaned (clean_contacts_csv IsoDates.infer IsoDates.to_str
                                       first_and_last default_config).1)
     ↔ is_Some (m !! "full_name")
       ∨ ("full_name" = "full_name"
          ∧ is_Some (m !! "first_name") ∧ is_Some (m !! "last_name"))).
Proof.
  intros m. split; [reflexivity|].
  exact (auto_mapped_columns IsoDates.infer IsoDates.to_str first_and_last default_config
           "full_name" eq_refl).
Defined.

Lemma parse_required_entries_witness :
  "email" ∈ parse_required " full_name , email,"
  ∧ "email" ≠ EmptyString ∧ strip "email" = "email" ∧ ("," % char ∉ chars "email")
  ∧ ∃ piece, piece ∈ split_on "," " full_name , email," ∧ "email" = strip piece.
Proof.
  assert (H : "email" ∈ parse_required " full_name , email,").
  { apply (bool_decide_unpack _). by vm_compute. }
  split; [exact H|].
  exact (parse_required_entries " full_name , email," "email" H).
Defined.

Lemma parse_required_join_witness :
  Forall (λ q, q ≠ EmptyString ∧ strip q = q ∧ ("," % char ∉ chars q)) ["full_name"; "email"]
  ∧ parse_required (join "," ["full_name"; "email"]) = ["full_name"; "email"].
Proof.
  assert (H : Forall (λ q, q ≠ EmptyString ∧ strip q = q ∧ ("," % char ∉ chars q))
                ["full_name"; "email"]).
  { apply (bool_decide_unpack _). by vm_compute. }
  split; [exact H|].
  exact (parse_required_join ["full_name"; "email"] H).
Defined.

Lemma blank_required_rejects_nothing_witness :
  let cfg := main_config (λ _, ∅) blank_required_args in
  (∀ piece, piece ∈ split_on "," (arg_required blank_required_args) →
            strip piece = EmptyString)
  ∧ required cfg = []
  ∧ ∀ e, e ∈ report (clean_contacts_csv IsoDates.infer IsoDates.to_str nameless_row cfg).1 →
         row e = NoRow.
Proof.
  intros cfg.
  assert (H : ∀ piece, piece ∈ split_on "," (arg_required blank_required_args) →
                       strip piece = EmptyString).
  { apply Forall_forall. apply (bool_decide_unpack _). by vm_compute. }
  split; [exact H|].
  exact (blank_required_rejects_nothing IsoDates.infer IsoDates.to_str (λ _, ∅)
           blank_required_args nameless_row H).
Defined.

Lemma cleaned_sorted_by_key_with_date_witness :
  let m := _build_auto_mapping (columns two_contacts_with_date) in
  let out := canonical_frame IsoDates.infer IsoDates.to_str m "last_clean_date"
               two_contacts_with_date in
  let keys := (λ ir : Z * gmap string cell,
                 row_key IsoDates.to_str "email" (columns out) ir.2)
                <$> rows (cleaned (clean_with IsoDates.infer IsoDates.to_str m
                                     "last_clean_date" "email" ["full_name"]
                                     two_contacts_with_date)) in
  "last_clean_date" ≠ "full_name" ∧ "last_clean_date" ≠ "email"
  ∧ "last_clean_date" ∈ columns out
  ∧ (rows two_contacts_with_date).*1 = [0%Z; 1%Z]
  ∧ keys = ["a@y.com"; "z@y.com"]
  ∧ StronglySorted (λ a b, String.ltb a b = true) keys.
Proof.
  intros m out keys.
  assert (H1 : "last_clean_date" ≠ "full_name") by discriminate.
  assert (H2 : "last_clean_date" ≠ "email") by discriminate.
  assert (Hd : "last_clean_date" ∈ columns out).
  { apply (bool_decide_unpack _). by vm_compute. }
  split; [exact H1|]. split; [exact H2|]. split; [exact Hd|].
  split; [vm_compute; reflexivity|]. split; [vm_compute; reflexivity|].
  exact (cleaned_sorted_by_key_with_date IsoDates.infer IsoDates.to_str m "last_clean_date"
           "email" ["full_name"] two_contacts_with_date H1 H2 Hd).
Defined.




(** Why C4, C5 and C8 ask for distinct labels: line 114 selects by
    label, so the row with the blank name, which is rejected and
    reported, comes back with the valid row that shares its label. *)
Example repeated_label_keeps_rejected_row :
  let res := (run_iso repeated_labels default_config).1 in
  table (cleaned res)
  = [(7%Z, [Str "Ann Lee"; Str "a@x.com"]); (7%Z, [Str ""; Str "b@x.com"]);
     (3%Z, [Str "Cy Poe"; Str "c@x.com"])]
  ∧ report res = [Entry (Ordinal 7) "missing_required:full_name"].
Proof. split; vm_compute; reflexivity. Qed.

(** C7, as stated, fails: with [email] as the date field the addresses,
    which are no dates, are missing values in the frame that is
    validated and in the cleaned table. *)
Lemma email_lost_to_date_field :
  get_column "email"
    (canonical_frame IsoDates.infer IsoDates.to_str
       (_build_auto_mapping (columns duplicates_without_date)) "email"
       duplicates_without_date)
  = [NA; NA]
  ∧ table (cleaned (run_iso duplicates_without_date email_as_date_config).1)
    = [(1%Z, [Str "A. Lee"; NA]); (0%Z, [Str "Ann Lee"; NA])]
  ∧ report (run_iso duplicates_without_date email_as_date_config).1 = [].
Proof. repeat split; vm_compute; reflexivity. Qed.
